(** * Blog post manager (src/blog-post-manager/src/main.ts)

    A shallow embedding of the post store of [main.ts]: the module
    variables [posts] and [currentEditingId], the persistent slot
    ['blogPosts'] of [localStorage], the few DOM controls the code reads
    and writes, and the functions that act on them.

    Conventions of the embedding.
    - A JavaScript string is a [string]: a sequence of code units
      restricted to U+0000..U+00FF, one [ascii] per code unit.  Module
      [Wide] takes the list operation to strings of 16-bit code units,
      where the lower case of a letter can depend on its neighbours.
    - A [Date] holds a time value in milliseconds since the epoch, or is
      an Invalid Date (time value NaN).
    - Arrays live in a heap and are handled through references, because
      [unshift] and [sort] update an array in place while [filter],
      [map] and the spread [[...posts]] allocate a new one.  The post
      objects themselves are stored by value in the arrays: when
      [Object.assign] writes to a post, no other array in use holds it.
    - What the host supplies ([crypto.randomUUID()], [new Date()], the
      answer to [confirm], [String.prototype.localeCompare], the
      fallback of [Date.parse]) is an explicit argument.
    - [localStorage] is available and has room: [getItem] and [setItem]
      do not throw.
    - What the user does on the page is an [Event]; [step] runs the
      handler that [init] or the markup of a card attaches to it. *)

From Stdlib Require Import ZArith List String Ascii Lia Bool Sorted Permutation OrdersEx.
From stdpp Require Import gmap strings list.

Local Open Scope string_scope.
Local Open Scope Z_scope.

(** ** Decimal fields of fixed width *)

Module Decimal.

Definition digit (n : Z) : ascii := ascii_of_N (48 + Z.to_N n).

Definition digit_val (c : ascii) : option Z :=
  let n := Z.of_N (N_of_ascii c) in
  if (48 <=? n) && (n <=? 57) then Some (n - 48) else None.

(** [pad w n]: the last [w] decimal digits of [n], most significant
    first, as [String(n).padStart(w, '0')] gives for [0 <= n < 10^w]. *)
Fixpoint pad_acc (w : nat) (n : Z) (acc : string) : string :=
  match w with
  | O => acc
  | S w' => pad_acc w' (n / 10) (String (digit (n mod 10)) acc)
  end.

Definition pad (w : nat) (n : Z) : string := pad_acc w n "".

(** [take w s]: read exactly [w] decimal digits from the front of [s]. *)
Fixpoint take_acc (w : nat) (acc : Z) (s : string) : option (Z * string) :=
  match w with
  | O => Some (acc, s)
  | S w' =>
      match s with
      | String c s' =>
          match digit_val c with
          | Some d => take_acc w' (10 * acc + d) s'
          | None => None
          end
      | EmptyString => None
      end
  end.

Definition take (w : nat) (s : string) : option (Z * string) := take_acc w 0 s.

End Decimal.

(** ** Numbers *)

Module JSNumber.

(** The numbers the program computes with: integers and NaN. *)
Inductive Number : Type :=
| Num (z : Z)
| NaN.

Definition sub (a b : Number) : Number :=
  match a, b with
  | Num x, Num y => Num (x - y)
  | _, _ => NaN
  end.

End JSNumber.

(** ** Dates (ECMAScript time values) *)

Module JSDate.

Definition msPerDay : Z := 86400000.
Definition msPerHour : Z := 3600000.
Definition msPerMinute : Z := 60000.
Definition msPerSecond : Z := 1000.
Definition maxTime : Z := 8640000000000000.

Definition Day (t : Z) : Z := t / msPerDay.
Definition TimeWithinDay (t : Z) : Z := t mod msPerDay.

Definition DayFromYear (y : Z) : Z :=
  365 * (y - 1970) + (y - 1969) / 4 - (y - 1901) / 100 + (y - 1601) / 400.

Definition InLeapYear_of (y : Z) : bool :=
  if negb (y mod 4 =? 0) then false
  else if negb (y mod 100 =? 0) then true
  else if negb (y mod 400 =? 0) then false
  else true.

Definition DaysInYear (y : Z) : Z := if InLeapYear_of y then 366 else 365.

(** The year of a day number: the largest [y] with
    [DayFromYear y <= d], found from an estimate that is off by at
    most one (lemma [YearFromDay_spec]). *)
Definition YearFromDay (d : Z) : Z :=
  let y0 := 1970 + (d * 400) / 146097 in
  if DayFromYear (y0 + 1) <=? d then y0 + 1
  else if DayFromYear y0 <=? d then y0
  else y0 - 1.

Definition YearFromTime (t : Z) : Z := YearFromDay (Day t).
Definition InLeapYear (t : Z) : bool := InLeapYear_of (YearFromTime t).
Definition DayWithinYear (t : Z) : Z := Day t - DayFromYear (YearFromTime t).

(** First day-within-year of month [m] (0 = January). *)
Definition monthStart (leap : bool) (m : Z) : Z :=
  let l := if leap then 1 else 0 in
  if m =? 0 then 0
  else if m =? 1 then 31
  else if m =? 2 then 59 + l
  else if m =? 3 then 90 + l
  else if m =? 4 then 120 + l
  else if m =? 5 then 151 + l
  else if m =? 6 then 181 + l
  else if m =? 7 then 212 + l
  else if m =? 8 then 243 + l
  else if m =? 9 then 273 + l
  else if m =? 10 then 304 + l
  else if m =? 11 then 334 + l
  else 365 + l.

Definition monthOfDay (leap : bool) (d : Z) : Z :=
  if d <? monthStart leap 1 then 0
  else if d <? monthStart leap 2 then 1
  else if d <? monthStart leap 3 then 2
  else if d <? monthStart leap 4 then 3
  else if d <? monthStart leap 5 then 4
  else if d <? monthStart leap 6 then 5
  else if d <? monthStart leap 7 then 6
  else if d <? monthStart leap 8 then 7
  else if d <? monthStart leap 9 then 8
  else if d <? monthStart leap 10 then 9
  else if d <? monthStart leap 11 then 10
  else 11.

Definition MonthFromTime (t : Z) : Z := monthOfDay (InLeapYear t) (DayWithinYear t).

Definition DateFromTime (t : Z) : Z :=
  DayWithinYear t - monthStart (InLeapYear t) (MonthFromTime t) + 1.

Definition HourFromTime (t : Z) : Z := (t / msPerHour) mod 24.
Definition MinFromTime (t : Z) : Z := (t / msPerMinute) mod 60.
Definition SecFromTime (t : Z) : Z := (t / msPerSecond) mod 60.
Definition msFromTime (t : Z) : Z := t mod msPerSecond.

Definition DaysInMonth (leap : bool) (m : Z) : Z :=
  monthStart leap (m + 1) - monthStart leap m.

(** [MakeDay], [MakeTime], [MakeDate] and [TimeClip] on integers. *)
Definition MakeDay (year month date : Z) : Z :=
  DayFromYear year + monthStart (InLeapYear_of year) month + date - 1.

Definition MakeTime (hour min sec ms : Z) : Z :=
  hour * msPerHour + min * msPerMinute + sec * msPerSecond + ms.

Definition MakeDate (day time : Z) : Z := day * msPerDay + time.

Definition inRange (t : Z) : bool := (- maxTime <=? t) && (t <=? maxTime).

(** A [Date] object: its time value, NaN for an Invalid Date. *)
Inductive Date : Type :=
| TimeValue (t : Z)
| InvalidDate.

Definition TimeClip (t : Z) : Date :=
  if inRange t then TimeValue t else InvalidDate.

(** [Date.prototype.toISOString] of a valid time value. *)
Definition yearString (y : Z) : string :=
  if (0 <=? y) && (y <=? 9999) then Decimal.pad 4 y
  else if y <? 0 then "-" +:+ Decimal.pad 6 (- y)
  else "+" +:+ Decimal.pad 6 y.

Definition toISOString (t : Z) : string :=
  yearString (YearFromTime t) +:+ "-" +:+
  Decimal.pad 2 (MonthFromTime t + 1) +:+ "-" +:+
  Decimal.pad 2 (DateFromTime t) +:+ "T" +:+
  Decimal.pad 2 (HourFromTime t) +:+ ":" +:+
  Decimal.pad 2 (MinFromTime t) +:+ ":" +:+
  Decimal.pad 2 (SecFromTime t) +:+ "." +:+
  Decimal.pad 3 (msFromTime t) +:+ "Z".

(** The complete UTC form of the Date Time String Format,
    [YYYY-MM-DDTHH:mm:ss.sssZ] with a four-digit year or a signed
    six-digit one; out-of-bounds fields make the string no instance
    of the format. *)
Definition expect (c : ascii) (s : string) : option string :=
  match s with
  | String c' r => if Ascii.eqb c c' then Some r else None
  | EmptyString => None
  end.

Definition parseYear (s : string) : option (Z * string) :=
  match expect "+" s with
  | Some r => Decimal.take 6 r
  | None =>
      match expect "-" s with
      | Some r =>
          '(y, r') ← Decimal.take 6 r;
          if y =? 0 then None else Some (- y, r')
      | None => Decimal.take 4 s
      end
  end.

Definition parseISO (s : string) : option Z :=
  '(year, s) ← parseYear s;
  s ← expect "-" s;
  '(month, s) ← Decimal.take 2 s;
  s ← expect "-" s;
  '(date, s) ← Decimal.take 2 s;
  s ← expect "T" s;
  '(hour, s) ← Decimal.take 2 s;
  s ← expect ":" s;
  '(min, s) ← Decimal.take 2 s;
  s ← expect ":" s;
  '(sec, s) ← Decimal.take 2 s;
  s ← expect "." s;
  '(ms, s) ← Decimal.take 3 s;
  s ← expect "Z" s;
  if negb (String.eqb s "") then None
  else if negb ((1 <=? month) && (month <=? 12)) then None
  else if negb ((1 <=? date) && (date <=? DaysInMonth (InLeapYear_of year) (month - 1))) then None
  else if negb ((hour <=? 23) || ((hour =? 24) && (min =? 0) && (sec =? 0) && (ms =? 0))) then None
  else if negb ((min <=? 59) && (sec <=? 59)) then None
  else Some (MakeDate (MakeDay year (month - 1) date) (MakeTime hour min sec ms)).

Definition getTime (d : Date) : JSNumber.Number :=
  match d with
  | TimeValue t => JSNumber.Num t
  | InvalidDate => JSNumber.NaN
  end.

Definition toJSON (d : Date) : option string :=
  match d with
  | TimeValue t => Some (toISOString t)
  | InvalidDate => None
  end.

Section Host.
(** What [Date.parse] makes of a string that is no instance of the
    format above is left to the implementation. *)
Variable hostDateParse : string -> Date.

(** [new Date(s)] for a string [s]. *)
Definition parse (s : string) : Date :=
  match parseISO s with
  | Some t => TimeClip t
  | None => hostDateParse s
  end.
End Host.


End JSDate.

(** ** Strings *)

Module JSString.

Definition truthy (s : string) : bool := negb (String.eqb s "").

(** [toLowerCase] on U+0000..U+00FF: the letters A-Z and the
    Latin-1 capitals U+00C0..U+00DE (without the sign U+00D7) move up
    by 32, every other code unit is its own lower case. *)
Definition lowerCodeUnit (c : ascii) : ascii :=
  let n := N_of_ascii c in
  if ((65 <=? n) && (n <=? 90) || (192 <=? n) && (n <=? 222) && negb (n =? 215))%N
  then ascii_of_N (n + 32) else c.

Fixpoint toLowerCase (s : string) : string :=
  match s with
  | EmptyString => EmptyString
  | String c r => String (lowerCodeUnit c) (toLowerCase r)
  end.

Fixpoint startsWith (s search : string) {struct search} : bool :=
  match search, s with
  | EmptyString, _ => true
  | String c search', String d s' => Ascii.eqb c d && startsWith s' search'
  | String _ _, EmptyString => false
  end.

(** [s.includes(search)]: [search] occurs at some position of [s]. *)
Fixpoint includes (s search : string) : bool :=
  startsWith s search ||
  match s with
  | EmptyString => false
  | String _ r => includes r search
  end.

End JSString.

(** ** Completions *)

Inductive Error : Type :=
| SyntaxError
| TypeError.

(** How a call ends: normally with a value, with an exception thrown,
    or [Outside] the values this embedding represents (a code unit
    above U+00FF, an object that is no [BlogPost]).  [OutOfFuel] is the
    end of a recursion that was given too little fuel; [JSON.parse]
    gives its recursion enough (lemma [JSON_parse_fuel]). *)
Inductive Completion (A : Type) : Type :=
| Normal (a : A)
| Throw (e : Error)
| Outside
| OutOfFuel.

Arguments Normal {A} a.
Arguments Throw {A} e.
Arguments Outside {A}.
Arguments OutOfFuel {A}.

Definition bindC {A B : Type} (c : Completion A) (k : A -> Completion B) : Completion B :=
  match c with
  | Normal a => k a
  | Throw e => Throw e
  | Outside => Outside
  | OutOfFuel => OutOfFuel
  end.

(** [try { c } catch (error) { handler error }] *)
Definition tryCatch {A : Type} (c : Completion A) (handler : Error -> Completion A)
  : Completion A :=
  match c with
  | Throw e => handler e
  | _ => c
  end.

#[global] Instance Completion_bind : MBind Completion :=
  fun A B k c => bindC c k.

Fixpoint mapC {A B : Type} (f : A -> Completion B) (l : list A) : Completion (list B) :=
  match l with
  | [] => Normal []
  | x :: l' => y ← f x; ys ← mapC f l'; Normal (y :: ys)
  end.

(** ** JSON texts *)

#[local] Set Warnings "-register-all".

Module JSON.

(** A JSON value.  A number is kept as its literal: the program never
    computes with one. *)
Inductive value : Type :=
| Null
| Bool (b : bool)
| Number (literal : string)
| Str (s : string)
| Array (elements : list value)
| Object (members : list (string * value)).

Definition quotationMark : ascii := "034"%char.
Definition reverseSolidus : ascii := "092"%char.

Definition hexDigit (n : N) : ascii :=
  if (n <? 10)%N then ascii_of_N (48 + n) else ascii_of_N (87 + n).

Definition hexVal (c : ascii) : option N :=
  let n := N_of_ascii c in
  if ((48 <=? n) && (n <=? 57))%N then Some (n - 48)%N
  else if ((97 <=? n) && (n <=? 102))%N then Some (n - 87)%N
  else if ((65 <=? n) && (n <=? 70))%N then Some (n - 55)%N
  else None.

(** *** [JSON.stringify] *)

(** QuoteJSONString, one code unit at a time. *)
Definition quoteCodeUnit (c : ascii) : string :=
  let n := N_of_ascii c in
  if (n =? 8)%N then "\b"
  else if (n =? 9)%N then "\t"
  else if (n =? 10)%N then "\n"
  else if (n =? 12)%N then "\f"
  else if (n =? 13)%N then "\r"
  else if (n =? 34)%N then String reverseSolidus (String quotationMark "")
  else if (n =? 92)%N then String reverseSolidus (String reverseSolidus "")
  else if (n <? 32)%N then
    "\u00" +:+ String (hexDigit (n / 16)) (String (hexDigit (n mod 16)) "")
  else String c "".

Fixpoint quoteBody (s : string) : string :=
  match s with
  | EmptyString => EmptyString
  | String c r => quoteCodeUnit c +:+ quoteBody r
  end.

Definition quote (s : string) : string :=
  String quotationMark (quoteBody s +:+ String quotationMark "").

(** [sep]-separated concatenation, as [Array.prototype.join]. *)
Fixpoint join (sep : string) (l : list string) : string :=
  match l with
  | [] => ""
  | [x] => x
  | x :: l' => x +:+ sep +:+ join sep l'
  end.

(** SerializeJSONProperty with no indentation. *)
Fixpoint stringify (v : value) : string :=
  match v with
  | Null => "null"
  | Bool true => "true"
  | Bool false => "false"
  | Number literal => literal
  | Str s => quote s
  | Array elements => "[" +:+ join "," (List.map stringify elements) +:+ "]"
  | Object members =>
      "{" +:+
      join "," (List.map (fun m => quote (fst m) +:+ ":" +:+ stringify (snd m)) members)
      +:+ "}"
  end.

(** *** [JSON.parse] *)

Definition isWhitespace (c : ascii) : bool :=
  let n := N_of_ascii c in
  ((n =? 32) || (n =? 9) || (n =? 10) || (n =? 13))%N.

Fixpoint skipWhitespace (s : string) : string :=
  match s with
  | String c r => if isWhitespace c then skipWhitespace r else s
  | EmptyString => EmptyString
  end.

Definition isDigit (c : ascii) : bool :=
  let n := N_of_ascii c in ((48 <=? n) && (n <=? 57))%N.

(** The escape that follows a reverse solidus, other than [u]. *)
Definition simpleEscape (c : ascii) : option ascii :=
  let n := N_of_ascii c in
  if (n =? 34)%N then Some quotationMark
  else if (n =? 92)%N then Some reverseSolidus
  else if (n =? 47)%N then Some "/"%char
  else if (n =? 98)%N then Some "008"%char
  else if (n =? 102)%N then Some "012"%char
  else if (n =? 110)%N then Some "010"%char
  else if (n =? 114)%N then Some "013"%char
  else if (n =? 116)%N then Some "009"%char
  else None.

Definition hex4 (a b c d : ascii) : option N :=
  x ← hexVal a; y ← hexVal b; z ← hexVal c; w ← hexVal d;
  Some (((x * 16 + y) * 16 + z) * 16 + w)%N.

(** The characters of a string literal after its opening quotation
    mark, up to and including the closing one. *)
Fixpoint parseChars (s : string) : Completion (string * string) :=
  match s with
  | EmptyString => Throw SyntaxError
  | String c r =>
      if Ascii.eqb c quotationMark then Normal (EmptyString, r)
      else if Ascii.eqb c reverseSolidus then
        match r with
        | EmptyString => Throw SyntaxError
        | String e r1 =>
            if Ascii.eqb e "u" then
              match r1 with
              | String h1 (String h2 (String h3 (String h4 r2))) =>
                  match hex4 h1 h2 h3 h4 with
                  | None => Throw SyntaxError
                  | Some n =>
                      if (n <? 256)%N then
                        '(str, rest) ← parseChars r2;
                        Normal (String (ascii_of_N n) str, rest)
                      else Outside
                  end
              | _ => Throw SyntaxError
              end
            else
              match simpleEscape e with
              | None => Throw SyntaxError
              | Some d =>
                  '(str, rest) ← parseChars r1;
                  Normal (String d str, rest)
              end
        end
      else if (N_of_ascii c <? 32)%N then Throw SyntaxError
      else
        '(str, rest) ← parseChars r;
        Normal (String c str, rest)
  end.

(** [next c s]: the rest of [s] when it starts with [c]. *)
Definition next (c : ascii) (s : string) : option string :=
  match s with
  | String d r => if Ascii.eqb c d then Some r else None
  | EmptyString => None
  end.

(** The longest run of decimal digits at the front of [s]. *)
Fixpoint spanDigits (s : string) : string * string :=
  match s with
  | String c r =>
      if isDigit c then let '(ds, rest) := spanDigits r in (String c ds, rest)
      else (EmptyString, s)
  | EmptyString => (EmptyString, EmptyString)
  end.

Definition digits1 (s : string) : Completion (string * string) :=
  match spanDigits s with
  | (EmptyString, _) => Throw SyntaxError
  | (ds, rest) => Normal (ds, rest)
  end.

Definition parseInt (s : string) : Completion (string * string) :=
  match next "0" s with
  | Some r => Normal ("0", r)
  | None => digits1 s
  end.

Definition parseFrac (s : string) : Completion (string * string) :=
  match next "." s with
  | Some r => '(ds, rest) ← digits1 r; Normal ("." +:+ ds, rest)
  | None => Normal (EmptyString, s)
  end.

Definition parseSign (s : string) : string * string :=
  match next "+" s with
  | Some r => ("+", r)
  | None =>
      match next "-" s with
      | Some r => ("-", r)
      | None => (EmptyString, s)
      end
  end.

Definition parseExp (s : string) : Completion (string * string) :=
  match s with
  | String c r =>
      if Ascii.eqb c "e" || Ascii.eqb c "E" then
        let '(sign, r1) := parseSign r in
        '(ds, rest) ← digits1 r1;
        Normal (String c (sign +:+ ds), rest)
      else Normal (EmptyString, s)
  | EmptyString => Normal (EmptyString, s)
  end.

Definition parseNumber (s : string) : Completion (string * string) :=
  let '(minus, s1) :=
    match next "-" s with
    | Some r => ("-", r)
    | None => (EmptyString, s)
    end in
  '(int, s2) ← parseInt s1;
  '(frac, s3) ← parseFrac s2;
  '(exp, s4) ← parseExp s3;
  Normal (minus +:+ int +:+ frac +:+ exp, s4).

(** [literal word v s]: the rest of [s] after [word]. *)
Fixpoint dropPrefix (word s : string) : option string :=
  match word, s with
  | EmptyString, _ => Some s
  | String c w, String d r => if Ascii.eqb c d then dropPrefix w r else None
  | String _ _, EmptyString => None
  end.

Definition parseWord (word : string) (v : value) (s : string)
  : Completion (value * string) :=
  match dropPrefix word s with
  | Some rest => Normal (v, rest)
  | None => Throw SyntaxError
  end.

(** The recursive descent, on [fuel] for the nesting and the number
    of elements. *)
Fixpoint parseValue (fuel : nat) (s : string) {struct fuel}
  : Completion (value * string) :=
  match fuel with
  | O => OutOfFuel
  | S fuel' =>
      match s with
      | EmptyString => Throw SyntaxError
      | String c r =>
          if Ascii.eqb c "{" then
            match next "}" (skipWhitespace r) with
            | Some rest => Normal (Object [], rest)
            | None => '(ms, rest) ← parseMembers fuel' r; Normal (Object ms, rest)
            end
          else if Ascii.eqb c "[" then
            match next "]" (skipWhitespace r) with
            | Some rest => Normal (Array [], rest)
            | None => '(vs, rest) ← parseElements fuel' r; Normal (Array vs, rest)
            end
          else if Ascii.eqb c quotationMark then
            '(str, rest) ← parseChars r; Normal (Str str, rest)
          else if Ascii.eqb c "t" then parseWord "true" (Bool true) s
          else if Ascii.eqb c "f" then parseWord "false" (Bool false) s
          else if Ascii.eqb c "n" then parseWord "null" Null s
          else '(literal, rest) ← parseNumber s; Normal (Number literal, rest)
      end
  end
with parseElements (fuel : nat) (s : string) {struct fuel}
  : Completion (list value * string) :=
  match fuel with
  | O => OutOfFuel
  | S fuel' =>
      '(v, r) ← parseValue fuel' (skipWhitespace s);
      match next "," (skipWhitespace r) with
      | Some r1 => '(vs, rest) ← parseElements fuel' r1; Normal (v :: vs, rest)
      | None =>
          match next "]" (skipWhitespace r) with
          | Some rest => Normal ([v], rest)
          | None => Throw SyntaxError
          end
      end
  end
with parseMembers (fuel : nat) (s : string) {struct fuel}
  : Completion (list (string * value) * string) :=
  match fuel with
  | O => OutOfFuel
  | S fuel' =>
      match next quotationMark (skipWhitespace s) with
      | None => Throw SyntaxError
      | Some r =>
          '(key, r1) ← parseChars r;
          match next ":" (skipWhitespace r1) with
          | None => Throw SyntaxError
          | Some r2 =>
              '(v, r3) ← parseValue fuel' (skipWhitespace r2);
              match next "," (skipWhitespace r3) with
              | Some r4 =>
                  '(ms, rest) ← parseMembers fuel' r4;
                  Normal ((key, v) :: ms, rest)
              | None =>
                  match next "}" (skipWhitespace r3) with
                  | Some rest => Normal ([(key, v)], rest)
                  | None => Throw SyntaxError
                  end
              end
          end
      end
  end.

(** [JSON.parse(text)]: one value between optional whitespace. *)
Definition parse (text : string) : Completion value :=
  '(v, rest) ← parseValue (S (2 * String.length text)) (skipWhitespace text);
  match skipWhitespace rest with
  | EmptyString => Normal v
  | String _ _ => Throw SyntaxError
  end.

End JSON.

(** ** Arrays *)

Module JSArray.

Import JSNumber.

Section Sort.
Context {A : Type}.
Variable comparefn : A -> A -> Number.

(** SortCompare: the comparator's result, NaN read as [+0]. *)
Definition SortCompare (x y : A) : Z :=
  match comparefn x y with
  | Num v => v
  | NaN => 0
  end.

(** [Array.prototype.sort(comparefn)] is stable; insertion sort,
    which puts an element before the later ones it does not
    exceed, is the model of it. *)
Fixpoint insert (x : A) (l : list A) : list A :=
  match l with
  | [] => [x]
  | y :: l' => if SortCompare x y <=? 0 then x :: y :: l' else y :: insert x l'
  end.

Fixpoint sort (l : list A) : list A :=
  match l with
  | [] => []
  | x :: l' => insert x (sort l')
  end.
End Sort.

(** The array heap: a reference is a key of the map. *)
Section Heap.
Context {A : Type}.

Definition deref (h : gmap nat (list A)) (l : nat) : list A :=
  default [] (h !! l).

Definition alloc (a : list A) (h : gmap nat (list A)) : nat * gmap nat (list A) :=
  let l := fresh (dom h) in (l, <[l:=a]> h).

(** [l.unshift(x)], in place. *)
Definition unshift (l : nat) (x : A) (h : gmap nat (list A)) : gmap nat (list A) :=
  alter (cons x) l h.

(** [l.filter(pred)]: a new array. *)
Definition filter (pred : A -> bool) (l : nat) (h : gmap nat (list A))
  : nat * gmap nat (list A) :=
  alloc (List.filter pred (deref h l)) h.

(** [[...l]]: a new array with the same elements. *)
Definition spread (l : nat) (h : gmap nat (list A)) : nat * gmap nat (list A) :=
  alloc (deref h l) h.

(** [l.sort(comparefn)], in place; the call returns [l] itself. *)
Definition sortInPlace (comparefn : A -> A -> Number) (l : nat)
  (h : gmap nat (list A)) : gmap nat (list A) :=
  alter (sort comparefn) l h.

(** [l[i] = x], for the element found at index [i]. *)
Definition store (l : nat) (i : nat) (x : A) (h : gmap nat (list A))
  : gmap nat (list A) :=
  alter (fun a => <[i:=x]> a) l h.
End Heap.

End JSArray.

(** ** The program *)

Module BlogPost.

Record t : Type := make {
  id : string;
  title : string;
  author : string;
  body : string;
  timestamp : JSDate.Date
}.

End BlogPost.

Module Main.

Import JSNumber.

(** *** The page *)

(** A text control of the form: its current and its default value
    ([form.reset()] puts the default back). *)
Record Control : Type := {
  value : string;
  defaultValue : string
}.

Inductive SubmitLabel : Type :=
| CreatePostLabel
| UpdatePostLabel.

(** The elements of [index.html] the code touches.  The cards of
    [#posts-container] are kept as the posts they are rendered from
    ([createPostHTML] is markup only); [noPosts] is the [display]
    style of [#no-posts].  The sort selector and the author filter
    are taken to stand outside the form. *)
Record Document : Type := {
  titleInput : Control;
  authorInput : Control;
  bodyInput : Control;
  submitBtn : SubmitLabel;
  cancelEdit : bool;
  sortSelect : string;
  authorFilter : string;
  postsContainer : list BlogPost.t;
  noPosts : string
}.

(** The module variables [posts] (a reference into the array heap)
    and [currentEditingId], the item ['blogPosts'] of [localStorage]
    ([None] when absent), the page and the error console. *)
Record State : Type := {
  heap : gmap nat (list BlogPost.t);
  posts : nat;
  currentEditingId : option string;
  storage : option string;
  document : Document;
  console : list Error
}.

Definition setHeap (h : gmap nat (list BlogPost.t)) (st : State) : State :=
  {| heap := h; posts := posts st; currentEditingId := currentEditingId st;
     storage := storage st; document := document st; console := console st |}.

Definition setPosts (l : nat) (st : State) : State :=
  {| heap := heap st; posts := l; currentEditingId := currentEditingId st;
     storage := storage st; document := document st; console := console st |}.

Definition setCurrentEditingId (e : option string) (st : State) : State :=
  {| heap := heap st; posts := posts st; currentEditingId := e;
     storage := storage st; document := document st; console := console st |}.

Definition setStorage (s : option string) (st : State) : State :=
  {| heap := heap st; posts := posts st; currentEditingId := currentEditingId st;
     storage := s; document := document st; console := console st |}.

Definition setDocument (d : Document) (st : State) : State :=
  {| heap := heap st; posts := posts st; currentEditingId := currentEditingId st;
     storage := storage st; document := d; console := console st |}.

Definition consoleError (e : Error) (st : State) : State :=
  {| heap := heap st; posts := posts st; currentEditingId := currentEditingId st;
     storage := storage st; document := document st; console := e :: console st |}.

(** The array [posts] refers to. *)
Definition postList (st : State) : list BlogPost.t :=
  JSArray.deref (heap st) (posts st).

(** [let posts: BlogPost[] = []; let currentEditingId = null] *)
Definition initialState (stored : option string) (d : Document) : State :=
  {| heap := {[ 0%nat := [] ]}; posts := 0%nat; currentEditingId := None;
     storage := stored; document := d; console := [] |}.

(** *** Persistence *)

(** What [JSON.stringify] sees of a post: [Date.prototype.toJSON]
    gives the ISO string, and [null] for an Invalid Date. *)
Definition toJSONValue (p : BlogPost.t) : JSON.value :=
  JSON.Object
    [("id", JSON.Str (BlogPost.id p));
     ("title", JSON.Str (BlogPost.title p));
     ("author", JSON.Str (BlogPost.author p));
     ("body", JSON.Str (BlogPost.body p));
     ("timestamp",
       match JSDate.toJSON (BlogPost.timestamp p) with
       | Some iso => JSON.Str iso
       | None => JSON.Null
       end)].

Definition serialize (l : list BlogPost.t) : string :=
  JSON.stringify (JSON.Array (List.map toJSONValue l)).

Definition saveToStorage (st : State) : State :=
  setStorage (Some (serialize (postList st))) st.

Section Host.
Variable localeCompare : string -> string -> Z.
Variable hostDateParse : string -> JSDate.Date.

(** [new Date(v)] for the value [v] of a parsed [timestamp]
    property ([None]: the property is absent, [undefined]). *)
Definition newDate (v : option JSON.value) : Completion JSDate.Date :=
  match v with
  | None => Normal JSDate.InvalidDate
  | Some (JSON.Str s) => Normal (JSDate.parse hostDateParse s)
  | Some JSON.Null => Normal (JSDate.TimeValue 0)
  | Some (JSON.Bool true) => Normal (JSDate.TimeValue 1)
  | Some (JSON.Bool false) => Normal (JSDate.TimeValue 0)
  | Some _ => Outside
  end.

(** A property name that is the numeral of a natural number, as
    array indices are. *)
Fixpoint allDigits (s : string) : bool :=
  match s with
  | EmptyString => true
  | String c r =>
      let n := N_of_ascii c in
      ((48 <=? n) && (n <=? 57))%N && allDigits r
  end.

Definition isIndexName (k : string) : bool :=
  match k with
  | EmptyString => false
  | String c r => allDigits k && (negb (Ascii.eqb c "0") || String.eqb r "")
  end.

Fixpoint distinctNames (ms : list (string * JSON.value)) : bool :=
  match ms with
  | [] => true
  | m :: ms' =>
      negb (existsb (fun m' => String.eqb (fst m) (fst m')) ms') && distinctNames ms'
  end.

(** The own properties that the spread [...post] copies, in their
    order.  A number and a boolean have none, nor have [null], the
    empty string and the empty array.  The members of a parsed object
    are its properties in the order of the text when no name occurs
    twice and none is an index name; a non-empty string or array, and
    any other object, is not modelled. *)
Definition ownProperties (post : JSON.value) : Completion (list (string * JSON.value)) :=
  match post with
  | JSON.Null | JSON.Bool _ | JSON.Number _ => Normal []
  | JSON.Str EmptyString => Normal []
  | JSON.Array [] => Normal []
  | JSON.Object ms =>
      if distinctNames ms && forallb (fun m => negb (isIndexName (fst m))) ms
      then Normal ms
      else Outside
  | _ => Outside
  end.

(** [post[k]] for an own property; [None] is [undefined]. *)
Fixpoint property (k : string) (ms : list (string * JSON.value)) : option JSON.value :=
  match ms with
  | [] => None
  | (k', v) :: ms' => if String.eqb k k' then Some v else property k ms'
  end.

(** What [{ ...post, timestamp: new Date(post.timestamp) }] evaluates
    to: an object with the properties copied from [post], where
    [timestamp] holds the date, in the place of a copied [timestamp]
    and as the last property otherwise. *)
Record Revived : Type := {
  copied : list (string * JSON.value);
  date : JSDate.Date
}.

(** Reading [post.timestamp] of [null] throws; the spread of [null]
    does not. *)
Definition revive (post : JSON.value) : Completion Revived :=
  match post with
  | JSON.Null => Throw TypeError
  | _ =>
      ps ← ownProperties post;
      ts ← newDate (property "timestamp" ps);
      Normal {| copied := ps; date := ts |}
  end.

(** [parsed.map(...)]: only an array has a [map] to call. *)
Definition mapParsed (parsed : JSON.value) : Completion (list Revived) :=
  match parsed with
  | JSON.Array elements => mapC revive elements
  | _ => Throw TypeError
  end.

Definition isKey (k : string) (m : string * JSON.value) : option string :=
  match m with
  | (k', JSON.Str s) => if String.eqb k k' then Some s else None
  | _ => None
  end.

(** The revived object as a [BlogPost], which the declared type of
    [posts] takes it for: it is one when it has the string properties
    [id], [title], [author] and [body] in this order and then
    [timestamp], which is the order [saveToStorage] writes. *)
Definition asBlogPost (r : Revived) : option BlogPost.t :=
  match copied r with
  | m1 :: m2 :: m3 :: m4 :: rest =>
      match isKey "id" m1, isKey "title" m2, isKey "author" m3, isKey "body" m4 with
      | Some i, Some t, Some a, Some b =>
          match rest with
          | [] => Some (BlogPost.make i t a b (date r))
          | [(k, _)] =>
              if String.eqb k "timestamp"
              then Some (BlogPost.make i t a b (date r))
              else None
          | _ => None
          end
      | _, _, _, _ => None
      end
  | _ => None
  end.

(** An array that holds an object of another shape takes the state
    out of what [State] describes. *)
Definition blogPost (r : Revived) : Completion BlogPost.t :=
  match asBlogPost r with
  | Some p => Normal p
  | None => Outside
  end.

(** What [loadFromStorage] does to [posts]: it keeps it, assigns the
    revived array, or, in the [catch] clause, logs the error and
    assigns the empty array. *)
Inductive Loaded : Type :=
| Kept
| Assigned (revived : list Revived)
| Reset (error : Error).

Definition load (stored : option string) : Completion Loaded :=
  match stored with
  | Some stored =>
      if JSString.truthy stored then
        tryCatch
          (parsed ← JSON.parse stored;
           revived ← mapParsed parsed;
           Normal (Assigned revived))
          (fun error => Normal (Reset error))
      else Normal Kept
  | None => Normal Kept
  end.

Definition loadFromStorage (st : State) : Completion State :=
  loaded ← load (storage st);
  match loaded with
  | Kept => Normal st
  | Assigned revived =>
      ps ← mapC blogPost revived;
      let '(l, h) := JSArray.alloc ps (heap st) in
      Normal (setPosts l (setHeap h st))
  | Reset error =>
      let st1 := consoleError error st in
      let '(l, h) := JSArray.alloc [] (heap st1) in
      Normal (setPosts l (setHeap h st1))
  end.

(** *** The store *)

(** [uuid] is the result of [crypto.randomUUID()], [now] the time
    value of [new Date()]. *)
Definition createPost (uuid : string) (now : Z) (title author body : string)
  (st : State) : State :=
  let post := BlogPost.make uuid title author body (JSDate.TimeValue now) in
  saveToStorage (setHeap (JSArray.unshift (posts st) post (heap st)) st).

(** [Object.assign(post, { title, author, body })] *)
Definition assign (post : BlogPost.t) (title author body : string) : BlogPost.t :=
  BlogPost.make (BlogPost.id post) title author body (BlogPost.timestamp post).

Definition updatePost (id title author body : string) (st : State) : State :=
  match list_find (fun p => BlogPost.id p = id) (postList st) with
  | Some (i, post) =>
      saveToStorage
        (setHeap (JSArray.store (posts st) i (assign post title author body) (heap st)) st)
  | None => st
  end.

(** *** The view *)

Definition compareFn (sortBy : string) (a b : BlogPost.t) : Number :=
  if String.eqb sortBy "author"
  then Num (localeCompare (BlogPost.author a) (BlogPost.author b))
  else JSNumber.sub (JSDate.getTime (BlogPost.timestamp b))
                    (JSDate.getTime (BlogPost.timestamp a)).

Definition getFilteredAndSortedPosts (st : State) : nat * State :=
  let filterText := JSString.toLowerCase (authorFilter (document st)) in
  let sortBy := sortSelect (document st) in
  let '(filtered, h) :=
    if JSString.truthy filterText
    then JSArray.filter
           (fun post => JSString.includes (JSString.toLowerCase (BlogPost.author post))
                                          filterText)
           (posts st) (heap st)
    else JSArray.spread (posts st) (heap st) in
  (filtered, setHeap (JSArray.sortInPlace (compareFn sortBy) filtered h) st).

Definition setView (cards : list BlogPost.t) (display : string) (d : Document)
  : Document :=
  {| titleInput := titleInput d; authorInput := authorInput d;
     bodyInput := bodyInput d; submitBtn := submitBtn d;
     cancelEdit := cancelEdit d; sortSelect := sortSelect d;
     authorFilter := authorFilter d;
     postsContainer := cards; noPosts := display |}.

Definition renderPosts (st : State) : State :=
  let '(filteredPosts, st1) := getFilteredAndSortedPosts st in
  let cards := JSArray.deref (heap st1) filteredPosts in
  if (length cards =? 0)%nat
  then setDocument (setView [] "block" (document st1)) st1
  else setDocument (setView cards "none" (document st1)) st1.

(** [answer] is what the user replies to [confirm]. *)
Definition deletePost (answer : bool) (id : string) (st : State) : State :=
  if answer then
    let '(l, h) :=
      JSArray.filter (fun post => negb (String.eqb (BlogPost.id post) id))
                     (posts st) (heap st) in
    renderPosts (saveToStorage (setPosts l (setHeap h st)))
  else st.

(** *** The form *)

Definition setValue (v : string) (c : Control) : Control :=
  {| value := v; defaultValue := defaultValue c |}.

Definition setForm (t a b : Control) (label : SubmitLabel) (cancel : bool)
  (d : Document) : Document :=
  {| titleInput := t; authorInput := a; bodyInput := b;
     submitBtn := label; cancelEdit := cancel;
     sortSelect := sortSelect d; authorFilter := authorFilter d;
     postsContainer := postsContainer d; noPosts := noPosts d |}.

Definition resetControl (c : Control) : Control := setValue (defaultValue c) c.

Definition resetForm (st : State) : State :=
  let d := document st in
  setCurrentEditingId None
    (setDocument
       (setForm (resetControl (titleInput d)) (resetControl (authorInput d))
                (resetControl (bodyInput d)) CreatePostLabel false d)
       st).

(** What a text [<input>] keeps of a string assigned to its [value]:
    the value sanitization strips every line feed and carriage
    return. *)
Fixpoint stripNewlines (s : string) : string :=
  match s with
  | EmptyString => EmptyString
  | String c r =>
      if Ascii.eqb c "010" || Ascii.eqb c "013"
      then stripNewlines r
      else String c (stripNewlines r)
  end.

(** What a [<textarea>] gives back of a string assigned to its
    [value]: a carriage return with the line feed after it, and a
    carriage return alone, read as one line feed. *)
Fixpoint normalizeNewlines (s : string) : string :=
  match s with
  | EmptyString => EmptyString
  | String c r =>
      if Ascii.eqb c "013" then
        match r with
        | String d r' =>
            if Ascii.eqb d "010"
            then String "010" (normalizeNewlines r')
            else String "010" (normalizeNewlines r)
        | EmptyString => String "010" EmptyString
        end
      else String c (normalizeNewlines r)
  end.

(** [input.value = v] and [textarea.value = v], as the control reads
    afterwards; [#title] and [#author] are taken to be text inputs. *)
Definition assignInput (v : string) (c : Control) : Control :=
  setValue (stripNewlines v) c.

Definition assignTextArea (v : string) (c : Control) : Control :=
  setValue (normalizeNewlines v) c.

Definition fillForm (post : BlogPost.t) (st : State) : State :=
  let d := document st in
  setDocument
    (setForm (assignInput (BlogPost.title post) (titleInput d))
             (assignInput (BlogPost.author post) (authorInput d))
             (assignTextArea (BlogPost.body post) (bodyInput d))
             UpdatePostLabel true d)
    st.

Definition editPost (id : string) (st : State) : State :=
  match list_find (fun p => BlogPost.id p = id) (postList st) with
  | None => st
  | Some (_, post) => fillForm post (setCurrentEditingId (Some id) st)
  end.

(** [if (currentEditingId)]: [null] and the empty string are falsy. *)
Definition editingId (st : State) : option string :=
  match currentEditingId st with
  | Some id => if JSString.truthy id then Some id else None
  | None => None
  end.

(** The submitted form is [#blog-form]; its fields [title],
    [author] and [body] are the three controls. *)
Definition handleSubmit (uuid : string) (now : Z) (st : State) : State :=
  let title := value (titleInput (document st)) in
  let author := value (authorInput (document st)) in
  let body := value (bodyInput (document st)) in
  let st1 :=
    match editingId st with
    | Some id => updatePost id title author body st
    | None => createPost uuid now title author body st
    end in
  renderPosts (resetForm st1).

Definition setAuthorFilter (v : string) (d : Document) : Document :=
  {| titleInput := titleInput d; authorInput := authorInput d;
     bodyInput := bodyInput d; submitBtn := submitBtn d;
     cancelEdit := cancelEdit d; sortSelect := sortSelect d;
     authorFilter := v;
     postsContainer := postsContainer d; noPosts := noPosts d |}.

Definition clearFilter (st : State) : State :=
  renderPosts (setDocument (setAuthorFilter "" (document st)) st).

Definition init (st : State) : Completion State :=
  st1 ← loadFromStorage st;
  Normal (renderPosts st1).

End Host.

(** The state of the form, as [handleSubmit] tells it. *)
Inductive FormState : Type :=
| Idle
| Editing (id : string).

Definition formState (st : State) : FormState :=
  match editingId st with
  | Some id => Editing id
  | None => Idle
  end.

End Main.

(** ** The list operation on texts beyond U+00FF *)

(** The embedding above takes every string in U+0000..U+00FF, where
    [toLowerCase] maps code unit by code unit.  This module takes the
    list operation, by value, to strings of 16-bit code units, as far
    as the Greek letters: there the lower case of a capital sigma
    depends on what stands around it. *)
Module Wide.

Import JSNumber.

Definition Text : Type := list N.

(** The string of U+0000..U+00FF as a text. *)
Fixpoint ofString (s : string) : Text :=
  match s with
  | EmptyString => []
  | String c r => N_of_ascii c :: ofString r
  end.

(** The Greek capital letters U+0391..U+03A1 and U+03A3..U+03A9, and
    the small letters U+03B1..U+03C9. *)
Definition isGreekCapital (u : N) : bool :=
  ((913 <=? u) && (u <=? 929) || (931 <=? u) && (u <=? 937))%N.

Definition isGreekSmall (u : N) : bool := ((945 <=? u) && (u <=? 969))%N.

(** The code units whose case conversion is modelled. *)
Definition modelled (u : N) : bool :=
  (u <? 256)%N || isGreekCapital u || isGreekSmall u.

(** The Unicode properties Cased and Case_Ignorable on the modelled
    code units. *)
Definition cased (u : N) : bool :=
  ((65 <=? u) && (u <=? 90) || (97 <=? u) && (u <=? 122)
   || (u =? 170) || (u =? 181) || (u =? 186)
   || (192 <=? u) && (u <=? 214) || (216 <=? u) && (u <=? 246)
   || (248 <=? u) && (u <=? 255))%N
  || isGreekCapital u || isGreekSmall u.

Definition caseIgnorable (u : N) : bool :=
  ((u =? 39) || (u =? 46) || (u =? 58) || (u =? 94) || (u =? 96)
   || (u =? 168) || (u =? 173) || (u =? 175) || (u =? 180)
   || (u =? 183) || (u =? 184))%N.

(** Going away from a sigma, over case-ignorable code units, the next
    code unit is a cased letter. *)
Fixpoint meetsCased (units : list N) : bool :=
  match units with
  | [] => false
  | u :: r => if caseIgnorable u then meetsCased r else cased u
  end.

(** The condition Final_Sigma: a cased letter before, none after.
    [before] holds the code units before the sigma, the nearest
    first. *)
Definition finalSigma (before after : list N) : bool :=
  meetsCased before && negb (meetsCased after).

(** The lower case of a code unit that is no capital sigma. *)
Definition lowerCodeUnit (u : N) : N :=
  if ((65 <=? u) && (u <=? 90) || (192 <=? u) && (u <=? 222) && negb (u =? 215))%N
     || isGreekCapital u
  then (u + 32)%N else u.

Fixpoint lower (before : list N) (s : Text) : Text :=
  match s with
  | [] => []
  | u :: r =>
      (if (u =? 931)%N
       then if finalSigma before r then 962%N else 963%N
       else lowerCodeUnit u)
      :: lower (u :: before) r
  end.

(** [s.toLowerCase()] *)
Definition toLowerCase (s : Text) : Completion Text :=
  if forallb modelled s then Normal (lower [] s) else Outside.

Definition truthy (s : Text) : bool :=
  match s with
  | [] => false
  | _ :: _ => true
  end.

Fixpoint startsWith (s search : Text) {struct search} : bool :=
  match search, s with
  | [], _ => true
  | c :: search', d :: s' => (c =? d)%N && startsWith s' search'
  | _ :: _, [] => false
  end.

Fixpoint includes (s search : Text) : bool :=
  startsWith s search ||
  match s with
  | [] => false
  | _ :: r => includes r search
  end.

Record Post : Type := make {
  id : Text;
  title : Text;
  author : Text;
  body : Text;
  timestamp : JSDate.Date
}.

(** [posts.filter(pred)] for a test that lower-cases. *)
Fixpoint filterC {A : Type} (pred : A -> Completion bool) (l : list A)
  : Completion (list A) :=
  match l with
  | [] => Normal []
  | x :: l' =>
      keep ← pred x;
      rest ← filterC pred l';
      Normal (if keep : bool then x :: rest else rest)
  end.

Section Host.
Variable localeCompare : Text -> Text -> Z.

Definition compareFn (sortBy : string) (a b : Post) : Number :=
  if String.eqb sortBy "author"
  then Num (localeCompare (author a) (author b))
  else JSNumber.sub (JSDate.getTime (timestamp b)) (JSDate.getTime (timestamp a)).

(** What the array that [getFilteredAndSortedPosts] returns holds,
    for the value [authorFilter] of the filter control, the value
    [sortBy] of the sort selector and the list [posts]. *)
Definition getFilteredAndSortedPosts (authorFilter : Text) (sortBy : string)
    (posts : list Post) : Completion (list Post) :=
  filterText ← toLowerCase authorFilter;
  filtered ←
    (if truthy filterText
     then filterC (fun post => a ← toLowerCase (author post);
                               Normal (includes a filterText)) posts
     else Normal posts);
  Normal (JSArray.sort (compareFn sortBy) filtered).

End Host.

End Wide.

(** * Vocabulary of the statements *)

Import Main.

(** ** The store *)

(** [posts] refers to an array of the heap. *)
Definition live (st : State) : Prop := is_Some (heap st !! posts st).

(** The ids of the posts, in the order of the list. *)
Definition ids (l : list BlogPost.t) : list string := List.map BlogPost.id l.

(** A request to create a post: [(uuid, now, (title, author, body))],
    with what the host generates for it. *)
Definition Request : Type := string * Z * (string * string * string).

(** The post a request asks for. *)
Definition requested (r : Request) : BlogPost.t :=
  let '(uuid, now, (title, author, body)) := r in
  BlogPost.make uuid title author body (JSDate.TimeValue now).

(** One call of [createPost] per request, in the order of the list. *)
Definition createPosts (reqs : list Request) (st : State) : State :=
  fold_left
    (fun st r => let '(uuid, now, (title, author, body)) := r in
                 createPost uuid now title author body st)
    reqs st.

(** ** The list operation *)

(** The posts [getFilteredAndSortedPosts] copies into the new array. *)
Definition kept (st : State) : list BlogPost.t :=
  let filterText := JSString.toLowerCase (authorFilter (document st)) in
  if JSString.truthy filterText
  then List.filter
         (fun post => JSString.includes (JSString.toLowerCase (BlogPost.author post))
                                        filterText)
         (postList st)
  else postList st.

(** What [getFilteredAndSortedPosts] returns: the posts of the array
    its result refers to. *)
Definition view (localeCompare : string -> string -> Z) (st : State) : list BlogPost.t :=
  JSArray.deref (heap (getFilteredAndSortedPosts localeCompare st).2)
                (getFilteredAndSortedPosts localeCompare st).1.


(** The test of the author filter; for the empty filter it holds of
    every author. *)
Definition authorMatches (filter : string) (p : BlogPost.t) : bool :=
  JSString.includes (JSString.toLowerCase (BlogPost.author p))
                    (JSString.toLowerCase filter).

(** A post by [a]. *)
Definition withAuthor (a : string) : BlogPost.t :=
  BlogPost.make "" "" a "" (JSDate.TimeValue 0).

(** ** Orders *)

(** [x] does not come after [y] in the order of the comparator. *)
Definition notAfter {A : Type} (comparefn : A -> A -> JSNumber.Number) (x y : A) : Prop :=
  JSArray.SortCompare comparefn x y <= 0.

(** A comparison of strings that orders them: of two strings one does
    not exceed the other, and not exceeding is transitive.
    [String.prototype.localeCompare] is required to be one. *)
Definition consistentComparator (compare : string -> string -> Z) : Prop :=
  (forall a b, 0 < compare a b -> compare b a <= 0)
  /\ (forall a b c, compare a b <= 0 -> compare b c <= 0 -> compare a c <= 0).

(** Ascending by author under [localeCompare]. *)
Definition ascendingByAuthor (localeCompare : string -> string -> Z)
  : list BlogPost.t -> Prop :=
  StronglySorted (fun a b => localeCompare (BlogPost.author a) (BlogPost.author b) <= 0).

(** Newest first: of two posts with valid dates the one in front is not
    the older one.  An Invalid Date is no point in time and is not
    compared. *)
Definition newestFirst : list BlogPost.t -> Prop :=
  StronglySorted
    (fun a b => forall ta tb,
       BlogPost.timestamp a = JSDate.TimeValue ta ->
       BlogPost.timestamp b = JSDate.TimeValue tb -> tb <= ta).

(** The timestamp of the post is no Invalid Date. *)
Definition hasTime (p : BlogPost.t) : Prop :=
  BlogPost.timestamp p <> JSDate.InvalidDate.

(** A valid date: a time value within the range of [Date]. *)
Definition validDate (d : JSDate.Date) : Prop :=
  match d with
  | JSDate.TimeValue t => JSDate.inRange t = true
  | JSDate.InvalidDate => False
  end.

(** The timestamp of the post is a valid date, as every timestamp is
    that [createPost] sets. *)
Definition dated (p : BlogPost.t) : Prop := validDate (BlogPost.timestamp p).

(** Comparison by code units: the lexicographic order of strings. *)
Definition codeUnitCompare (a b : string) : Z :=
  match String.compare a b with
  | Lt => -1
  | Eq => 0
  | Gt => 1
  end.

(** [localeCompare] as the hosts that collate by the Unicode collation
    algorithm answer it for two strings of the letters [A]-[Z] and
    [a]-[z], in a locale that does not tailor these letters: the
    letters decide, whatever their case, and between strings of the
    same letters the first difference in case does, lower case first.
    For other strings the definition stands for no host. *)
Definition letterCompare (a b : string) : Z :=
  match String.compare (JSString.toLowerCase a) (JSString.toLowerCase b) with
  | Lt => -1
  | Gt => 1
  | Eq =>
      match String.compare a b with
      | Lt => 1
      | Eq => 0
      | Gt => -1
      end
  end.

(** In lexicographic ascending order of author: the order of the code
    units, which [<] has on strings. *)
Definition lexicographicByAuthor : list BlogPost.t -> Prop :=
  ascendingByAuthor codeUnitCompare.

(** ** Texts beyond U+00FF *)

(** The post with its strings as texts. *)
Definition widen (p : BlogPost.t) : Wide.Post :=
  Wide.make (Wide.ofString (BlogPost.id p)) (Wide.ofString (BlogPost.title p))
            (Wide.ofString (BlogPost.author p)) (Wide.ofString (BlogPost.body p))
            (BlogPost.timestamp p).

(** ** JSON texts *)

(** No number occurs in the value. *)
Fixpoint numberFree (v : JSON.value) : bool :=
  match v with
  | JSON.Number _ => false
  | JSON.Array vs => forallb numberFree vs
  | JSON.Object ms => forallb (fun m => numberFree (snd m)) ms
  | _ => true
  end.

(** Fuel that is enough to parse the text of the value. *)
Fixpoint need (v : JSON.value) : nat :=
  match v with
  | JSON.Array vs => S (list_sum (List.map (fun v => S (need v)) vs))
  | JSON.Object ms => S (list_sum (List.map (fun m => S (need (snd m))) ms))
  | _ => 1
  end.

(** The text between the brackets of an array, and between the braces
    of an object. *)
Definition elementsText (vs : list JSON.value) : string :=
  JSON.join "," (List.map JSON.stringify vs).

Definition memberText (m : string * JSON.value) : string :=
  JSON.quote (fst m) +:+ ":" +:+ JSON.stringify (snd m).

Definition membersText (ms : list (string * JSON.value)) : string :=
  JSON.join "," (List.map memberText ms).

(** The text starts with a character that is no whitespace and
    closes no array or object. *)
Definition opens (s : string) : Prop :=
  exists c r, s = String c r
    /\ JSON.isWhitespace c = false
    /\ Ascii.eqb "]" c = false /\ Ascii.eqb "}" c = false.


(** The object [saveToStorage] makes [loadFromStorage] revive for a
    post. *)
Definition revivedPost (p : BlogPost.t) : Revived :=
  {| copied := match toJSONValue p with JSON.Object ms => ms | _ => [] end;
     date := BlogPost.timestamp p |}.


(** ** Sample data *)

(** A page with an empty form, the sort selector at [sortBy] and the
    author filter holding [filter]. *)
Definition emptyControl : Control := {| value := ""; defaultValue := "" |}.

Definition page (sortBy filter : string) : Document :=
  {| titleInput := emptyControl; authorInput := emptyControl;
     bodyInput := emptyControl; submitBtn := CreatePostLabel;
     cancelEdit := false; sortSelect := sortBy; authorFilter := filter;
     postsContainer := []; noPosts := "block" |}.

(** The state in which [posts] holds [l] and the storage mirrors it. *)
Definition stateWith (l : list BlogPost.t) (sortBy filter : string) : State :=
  {| heap := {[ 0%nat := l ]}; posts := 0%nat; currentEditingId := None;
     storage := Some (serialize l); document := page sortBy filter; console := [] |}.

(** The same with the form editing the post [id]. *)
Definition editingState (id : string) (l : list BlogPost.t) : State :=
  {| heap := {[ 0%nat := l ]}; posts := 0%nat; currentEditingId := Some id;
     storage := Some (serialize l); document := page "date" ""; console := [] |}.

(** The user types a title, an author and a body into the form. *)
Definition typed (t a b : string) (st : State) : State :=
  let d := document st in
  setDocument
    (setForm (setValue t (titleInput d)) (setValue a (authorInput d))
             (setValue b (bodyInput d)) (submitBtn d) (cancelEdit d) d)
    st.

(** A host whose [Date.parse] knows the ISO format only. *)
Definition isoOnly (s : string) : JSDate.Date := JSDate.InvalidDate.

Definition postA : BlogPost.t := BlogPost.make "a" "First" "Bob" "..." (JSDate.TimeValue 1).
Definition postB : BlogPost.t := BlogPost.make "b" "Second" "Ann" "..." (JSDate.TimeValue 2).
Definition postX : BlogPost.t := BlogPost.make "x" "Undated" "Eve" "..." JSDate.InvalidDate.
Definition postC : BlogPost.t := BlogPost.make "c" "Third" "ann" "..." (JSDate.TimeValue 3).


(** * The rest of the page *)

(** ** Markup *)

Module Markup.

(** The serialization of a text node: the ampersand, the two angle
    brackets and the no-break space U+00A0 become character
    references, every other code unit stands for itself. *)
Definition escapeCodeUnit (c : ascii) : string :=
  let n := N_of_ascii c in
  if (n =? 38)%N then "&amp;"
  else if (n =? 60)%N then "&lt;"
  else if (n =? 62)%N then "&gt;"
  else if (n =? 160)%N then "&nbsp;"
  else String c EmptyString.

(** [div.textContent = text; return div.innerHTML] *)
Fixpoint escapeHtml (text : string) : string :=
  match text with
  | EmptyString => EmptyString
  | String c r => escapeCodeUnit c +:+ escapeHtml r
  end.

(** [c] is one of the code units of [s]. *)
Fixpoint occurs (c : ascii) (s : string) : bool :=
  match s with
  | EmptyString => false
  | String d r => Ascii.eqb c d || occurs c r
  end.

(** The code units that [escapeHtml] rewrites. *)
Definition special (c : ascii) : bool :=
  let n := N_of_ascii c in
  ((n =? 38) || (n =? 60) || (n =? 62) || (n =? 160))%N.

(** [s.replace(/\n/g, '<br>')] *)
Fixpoint breakLines (s : string) : string :=
  match s with
  | EmptyString => EmptyString
  | String c r =>
      (if Ascii.eqb c "010" then "<br>" else String c EmptyString) +:+ breakLines r
  end.

(** What [createPostHTML] puts into [.post-content]:
    [escapeHtml(post.body).replace(/\n/g, '<br>')]. *)
Definition bodyMarkup (body : string) : string := breakLines (escapeHtml body).

End Markup.

(** ** Events *)

(** What the user does on the page, with what the host supplies: the
    listeners [init] registers ([submit], [change], [input], [click]),
    the [onclick] of the cards' buttons and of the cancel button, and
    typing into the form, which runs no code of the page. *)
Inductive Event : Type :=
| Submit (uuid : string) (now : Z)
| TypeInForm (title author body : string)
| EditClick (id : string)
| DeleteClick (id : string) (answer : bool)
| CancelClick
| SortChange (v : string)
| FilterInput (v : string)
| ClearFilterClick.

Definition setSortSelect (v : string) (d : Document) : Document :=
  {| titleInput := titleInput d; authorInput := authorInput d;
     bodyInput := bodyInput d; submitBtn := submitBtn d;
     cancelEdit := cancelEdit d; sortSelect := v;
     authorFilter := authorFilter d;
     postsContainer := postsContainer d; noPosts := noPosts d |}.

(** The handler an event runs.  The cancel button can be clicked only
    while it exists. *)
Definition step (localeCompare : string -> string -> Z) (e : Event) (st : State) : State :=
  match e with
  | Submit uuid now => handleSubmit localeCompare uuid now st
  | TypeInForm t a b => typed t a b st
  | EditClick id => editPost id st
  | DeleteClick id answer => deletePost localeCompare answer id st
  | CancelClick => if cancelEdit (document st) then resetForm st else st
  | SortChange v =>
      renderPosts localeCompare (setDocument (setSortSelect v (document st)) st)
  | FilterInput v =>
      renderPosts localeCompare (setDocument (setAuthorFilter v (document st)) st)
  | ClearFilterClick => clearFilter localeCompare st
  end.

Definition run (localeCompare : string -> string -> Z) (es : list Event) (st : State)
  : State :=
  fold_left (fun st e => step localeCompare e st) es st.

(** ** What the handlers keep *)


(** The cards on the page are what the list operation returns, and the
    indicator of [#no-posts] is shown exactly when there is no card. *)
Definition rendered (localeCompare : string -> string -> Z) (st : State) : Prop :=
  postsContainer (document st) = view localeCompare st
  /\ noPosts (document st)
     = (if (length (view localeCompare st) =? 0)%nat then "block" else "none").






(** The post holds what the form can hold: a title and an author
    without line feed and carriage return, a body without carriage
    return. *)
Definition enterable (p : BlogPost.t) : Prop :=
  stripNewlines (BlogPost.title p) = BlogPost.title p
  /\ stripNewlines (BlogPost.author p) = BlogPost.author p
  /\ normalizeNewlines (BlogPost.body p) = BlogPost.body p.

(** The form is as [resetForm] leaves it. *)
Definition pristine (st : State) : Prop :=
  currentEditingId st = None
  /\ submitBtn (document st) = CreatePostLabel
  /\ cancelEdit (document st) = false
  /\ value (titleInput (document st)) = defaultValue (titleInput (document st))
  /\ value (authorInput (document st)) = defaultValue (authorInput (document st))
  /\ value (bodyInput (document st)) = defaultValue (bodyInput (document st)).


(** The two posts have the same sort key: authors that
    [localeCompare] takes for equal, or the same timestamp. *)
Definition sameKey (localeCompare : string -> string -> Z) (sortBy : string)
    (x y : BlogPost.t) : Prop :=
  if String.eqb sortBy "author"
  then localeCompare (BlogPost.author x) (BlogPost.author y) = 0
  else BlogPost.timestamp x = BlogPost.timestamp y.

(** The comparator of the list operation is a consistent one on the
    posts of the list, so that the order [sort] produces is defined:
    under the key [author] when [localeCompare] is, under any other
    key when no post has an Invalid Date. *)
Definition ordering (localeCompare : string -> string -> Z) (st : State) : Prop :=
  if String.eqb (sortSelect (document st)) "author"
  then consistentComparator localeCompare
  else Forall hasTime (postList st).

(** Neighbours are in the order of the comparator.  *)
Definition inOrder (comparefn : BlogPost.t -> BlogPost.t -> JSNumber.Number)
  : list BlogPost.t -> Prop :=
  Sorted (notAfter comparefn).

(** ** More sample data *)

(** A post whose id is the empty string, as a stored text can hold it. *)
Definition postE : BlogPost.t := BlogPost.make "" "No id" "Eve" "..." (JSDate.TimeValue 3).


(** * Properties *)

#[local] Arguments String.append !s1 s2 / : simpl nomatch.

Example toISOString_epoch :
  JSDate.toISOString 0 = "1970-01-01T00:00:00.000Z".
Proof. reflexivity. Qed.

Example toISOString_2023 :
  JSDate.toISOString 1700000000000 = "2023-11-14T22:13:20.000Z".
Proof. reflexivity. Qed.

Example toISOString_before_epoch :
  JSDate.toISOString (-1) = "1969-12-31T23:59:59.999Z".
Proof. reflexivity. Qed.

Example toISOString_max :
  JSDate.toISOString JSDate.maxTime = "+275760-09-13T00:00:00.000Z".
Proof. reflexivity. Qed.

Example toISOString_min :
  JSDate.toISOString (- JSDate.maxTime) = "-271821-04-20T00:00:00.000Z".
Proof. reflexivity. Qed.

Example toISOString_leap_day :
  JSDate.toISOString 1709164800000 = "2024-02-29T00:00:00.000Z".
Proof. reflexivity. Qed.

Example parseISO_2023 :
  JSDate.parseISO "2023-11-14T22:13:20.000Z" = Some 1700000000000.
Proof. reflexivity. Qed.

Example parseISO_max :
  JSDate.parseISO "+275760-09-13T00:00:00.000Z" = Some JSDate.maxTime.
Proof. reflexivity. Qed.

Example parseISO_feb30 :
  JSDate.parseISO "2023-02-30T00:00:00.000Z" = None.
Proof. reflexivity. Qed.

Example JSON_parse_nested :
  JSON.parse " [ 1.5e3 , {} , [ [ ] , null ] , true , -0 ] "
  = Normal (JSON.Array [JSON.Number "1.5e3"; JSON.Object [];
                        JSON.Array [JSON.Array []; JSON.Null];
                        JSON.Bool true; JSON.Number "-0"]).
Proof. vm_compute. reflexivity. Qed.

Example JSON_parse_object :
  JSON.parse (JSON.stringify
    (JSON.Object [("a", JSON.Str (String "x" (String "010" (String "001" "A"))));
                  ("k", JSON.Array [JSON.Str ""; JSON.Object [("z", JSON.Null)]])]))
  = Normal
    (JSON.Object [("a", JSON.Str (String "x" (String "010" (String "001" "A"))));
                  ("k", JSON.Array [JSON.Str ""; JSON.Object [("z", JSON.Null)]])]).
Proof. vm_compute. reflexivity. Qed.

Example JSON_parse_malformed :
  JSON.parse "[1,]" = Throw SyntaxError /\ JSON.parse "{" = Throw SyntaxError /\
  JSON.parse "" = Throw SyntaxError /\ JSON.parse "01" = Throw SyntaxError /\
  JSON.parse "nul" = Throw SyntaxError /\ JSON.parse "[] x" = Throw SyntaxError /\
  JSON.parse "[[[[[[[[" = Throw SyntaxError.
Proof. vm_compute. repeat split. Qed.

(** ** The array heap *)

Section HeapFacts.
Context {A : Type}.
Implicit Types (h : gmap nat (list A)) (l : nat) (a : list A).

Lemma deref_Some h l a : h !! l = Some a -> JSArray.deref h l = a.
Proof. intros H. unfold JSArray.deref. by rewrite H. Qed.

Lemma deref_alter h l (f : list A -> list A) :
  is_Some (h !! l) -> JSArray.deref (alter f l h) l = f (JSArray.deref h l).
Proof.
  intros [a Ha]. unfold JSArray.deref.
  rewrite lookup_alter_eq, Ha. reflexivity.
Qed.

Lemma deref_alter_ne h l l' (f : list A -> list A) :
  l <> l' -> JSArray.deref (alter f l h) l' = JSArray.deref h l'.
Proof.
  intros Hne. unfold JSArray.deref. by rewrite lookup_alter_ne.
Qed.

Lemma alloc_fresh a h : h !! (JSArray.alloc a h).1 = None.
Proof.
  unfold JSArray.alloc. simpl.
  apply (not_elem_of_dom (D := gset nat)), is_fresh.
Qed.

Lemma alloc_lookup a h : (JSArray.alloc a h).2 !! (JSArray.alloc a h).1 = Some a.
Proof. unfold JSArray.alloc. simpl. apply lookup_insert_eq. Qed.

Lemma alloc_deref a h : JSArray.deref (JSArray.alloc a h).2 (JSArray.alloc a h).1 = a.
Proof. apply deref_Some, alloc_lookup. Qed.

Lemma alloc_preserves a h l a0 :
  h !! l = Some a0 -> (JSArray.alloc a h).2 !! l = Some a0.
Proof.
  intros H. pose proof (alloc_fresh a h) as Hf.
  unfold JSArray.alloc in *. simpl in *.
  rewrite lookup_insert_ne; [done|]. congruence.
Qed.

Lemma alloc_ne a h l : is_Some (h !! l) -> (JSArray.alloc a h).1 <> l.
Proof.
  intros [a0 H] <-. rewrite alloc_fresh in H. discriminate.
Qed.
End HeapFacts.

(** ** The store *)

Lemma createPost_postList uuid now title author body st :
  live st ->
  postList (createPost uuid now title author body st)
  = BlogPost.make uuid title author body (JSDate.TimeValue now) :: postList st.
Proof.
  intros Hl. unfold createPost, saveToStorage, postList. simpl.
  unfold JSArray.unshift. by rewrite deref_alter.
Qed.

Lemma createPost_live uuid now title author body st :
  live st -> live (createPost uuid now title author body st).
Proof.
  unfold live, createPost, saveToStorage, JSArray.unshift. simpl.
  intros H. by apply lookup_alter_is_Some.
Qed.

Lemma createPosts_postList reqs : forall st,
  live st ->
  postList (createPosts reqs st) = (rev (List.map requested reqs) ++ postList st)%list.
Proof.
  induction reqs as [|[[uuid now] [[title author] body]] reqs IH]; intros st Hl.
  - reflexivity.
  - simpl. rewrite IH by (by apply createPost_live).
    rewrite createPost_postList by done.
    by rewrite <- app_assoc.
Qed.

(** C1. [createPost] puts a post with the given title, author and body,
    the generated id and the current time in front of the list, keeps
    the former posts behind it in their order (so the length grows by
    one), and stores the serialized list; an id that is not in use yet
    keeps the ids pairwise distinct.  Hence [n] posts created from the
    empty list give a list of length [n], the latest first. *)
Theorem createPost_front (st : State) :
  live st ->
  (forall uuid now title author body,
     let st' := createPost uuid now title author body st in
     postList st' = BlogPost.make uuid title author body (JSDate.TimeValue now) :: postList st
     /\ length (postList st') = S (length (postList st))
     /\ storage st' = Some (serialize (postList st'))
     /\ (uuid ∉ ids (postList st) -> NoDup (ids (postList st)) ->
         NoDup (ids (postList st'))))
  /\ (forall reqs,
        postList st = [] ->
        postList (createPosts reqs st) = rev (List.map requested reqs)
        /\ length (postList (createPosts reqs st)) = length reqs).
Proof.
  intros Hl. split.
  - intros uuid now title author body st'.
    assert (E : postList st'
                = BlogPost.make uuid title author body (JSDate.TimeValue now) :: postList st)
      by (by apply createPost_postList).
    split; [exact E|]. split.
    { rewrite E. reflexivity. }
    split.
    { reflexivity. }
    intros Hfresh Hnd. rewrite E. unfold ids in *. simpl.
    constructor; assumption.
  - intros reqs Hempty.
    rewrite createPosts_postList, Hempty, app_nil_r by done.
    split; [done|]. by rewrite length_rev, length_map.
Qed.

(** ** The view: a new array, sorted in place *)

Lemma getFilteredAndSortedPosts_eq localeCompare st :
  let l := fresh (dom (heap st)) in
  getFilteredAndSortedPosts localeCompare st
  = (l, setHeap
          (<[l := JSArray.sort (compareFn localeCompare (sortSelect (document st))) (kept st)]>
             (heap st))
          st).
Proof.
  unfold getFilteredAndSortedPosts, kept, JSArray.filter, JSArray.spread,
    JSArray.alloc, JSArray.sortInPlace, postList.
  destruct (JSString.truthy _); simpl; by rewrite alter_insert_eq.
Qed.

Lemma renderPosts_frame localeCompare st :
  live st ->
  let st' := renderPosts localeCompare st in
  posts st' = posts st
  /\ postList st' = postList st
  /\ storage st' = storage st
  /\ currentEditingId st' = currentEditingId st
  /\ console st' = console st
  /\ titleInput (document st') = titleInput (document st)
  /\ authorInput (document st') = authorInput (document st)
  /\ bodyInput (document st') = bodyInput (document st)
  /\ submitBtn (document st') = submitBtn (document st)
  /\ cancelEdit (document st') = cancelEdit (document st).
Proof.
  intros [a Ha]. unfold renderPosts.
  rewrite getFilteredAndSortedPosts_eq.
  assert (Hne : fresh (dom (heap st)) <> posts st).
  { intros E. pose proof (is_fresh (dom (heap st))) as Hf.
    rewrite E in Hf. apply Hf, elem_of_dom. eauto. }
  destruct (_ =? _)%nat; simpl; unfold postList; simpl; unfold JSArray.deref;
    rewrite lookup_insert_ne by done; repeat split; reflexivity.
Qed.

(** C7. [getFilteredAndSortedPosts] works on an array of its own: the
    reference it returns is new, [posts] still refers to the same array,
    every array that was in the heap (the one of [posts] among them)
    holds the same posts in the same order, and the stored text is
    untouched. *)
Theorem view_leaves_posts (localeCompare : string -> string -> Z) (st : State) :
  live st ->
  let l := (getFilteredAndSortedPosts localeCompare st).1 in
  let st' := (getFilteredAndSortedPosts localeCompare st).2 in
  posts st' = posts st
  /\ heap st' !! posts st = heap st !! posts st
  /\ postList st' = postList st
  /\ l <> posts st
  /\ heap st !! l = None
  /\ (forall l0 a, heap st !! l0 = Some a -> heap st' !! l0 = Some a)
  /\ storage st' = storage st.
Proof.
  intros [a Ha]. rewrite getFilteredAndSortedPosts_eq. simpl.
  pose proof (is_fresh (dom (heap st))) as Hf.
  assert (Hnone : heap st !! fresh (dom (heap st)) = None)
    by (by apply (not_elem_of_dom (D := gset nat))).
  assert (Hne : fresh (dom (heap st)) <> posts st) by congruence.
  split; [done|]. split; [by rewrite lookup_insert_ne|].
  split; [unfold postList, JSArray.deref; simpl; by rewrite lookup_insert_ne|].
  split; [done|]. split; [done|]. split; [|done].
  intros l0 a0 H0. rewrite lookup_insert_ne; [done|]. congruence.
Qed.

(** ** Updating and deleting *)

Lemma updatePost_found id title author body st i post :
  live st ->
  list_find (fun p => BlogPost.id p = id) (postList st) = Some (i, post) ->
  postList (updatePost id title author body st)
  = <[i := assign post title author body]> (postList st).
Proof.
  intros Hl Hf. unfold updatePost. rewrite Hf.
  unfold saveToStorage, postList, JSArray.store. simpl.
  by rewrite deref_alter.
Qed.

(** C2. When the list holds a post with the given id, [updatePost]
    writes the new title, author and body into the first such post and
    keeps its id and timestamp; every other position of the list holds
    what it held, the length is the same, and the list is stored. *)
Theorem updatePost_overwrites (id title author body : string) (st : State) :
  live st -> id ∈ ids (postList st) ->
  let st' := updatePost id title author body st in
  exists i post,
    postList st !! i = Some post
    /\ BlogPost.id post = id
    /\ (forall j q, postList st !! j = Some q -> (j < i)%nat -> BlogPost.id q <> id)
    /\ postList st' !! i
       = Some (BlogPost.make id title author body (BlogPost.timestamp post))
    /\ (forall j, j <> i -> postList st' !! j = postList st !! j)
    /\ length (postList st') = length (postList st)
    /\ storage st' = Some (serialize (postList st')).
Proof.
  intros Hl Hin st'.
  apply list_elem_of_In, in_map_iff in Hin. destruct Hin as (p & Hp & Hin).
  apply list_elem_of_In in Hin.
  destruct (list_find_elem_of (fun p => BlogPost.id p = id) _ p Hin Hp) as [[i post] Hf].
  pose proof Hf as Hf'. apply list_find_Some in Hf' as (Hi & Hid & Hbefore).
  assert (E : postList st' = <[i := assign post title author body]> (postList st))
    by (by apply updatePost_found).
  exists i, post. split; [done|]. split; [done|]. split.
  { intros j q Hj Hlt. by apply (Hbefore j q). }
  split.
  { rewrite E, list_lookup_insert_eq by (by eapply lookup_lt_Some).
    unfold assign. by rewrite Hid. }
  split.
  { intros j Hne. rewrite E. by apply list_lookup_insert_ne. }
  split.
  { rewrite E. apply length_insert. }
  subst st'. unfold updatePost. by rewrite Hf.
Qed.

Lemma filter_other_id (id : string) (l : list BlogPost.t) :
  id ∉ ids l ->
  List.filter (fun post => negb (String.eqb (BlogPost.id post) id)) l = l.
Proof.
  induction l as [|p l IH]; intros Hn; [done|].
  simpl. unfold ids in Hn. simpl in Hn.
  apply not_elem_of_cons in Hn as [Hp Hl].
  destruct (String.eqb_spec (BlogPost.id p) id) as [E|_]; [congruence|].
  simpl. by rewrite IH.
Qed.

Lemma deletePost_postList localeCompare id st :
  let st' := deletePost localeCompare true id st in
  postList st'
  = List.filter (fun post => negb (String.eqb (BlogPost.id post) id)) (postList st)
  /\ storage st' = Some (serialize (postList st'))
  /\ console st' = console st
  /\ currentEditingId st' = currentEditingId st.
Proof.
  unfold deletePost, JSArray.filter.
  set (a := List.filter _ _).
  pose proof (alloc_lookup a (heap st)) as Hlook.
  destruct (JSArray.alloc a (heap st)) as [l h] eqn:Ea. simpl in Hlook.
  set (st1 := saveToStorage _).
  assert (Hl : live st1) by (unfold live; simpl; eauto).
  destruct (renderPosts_frame localeCompare st1 Hl) as (_ & Hp & Hs & He & Hc & _).
  assert (H1 : postList st1 = a).
  { unfold postList. simpl. by apply deref_Some. }
  simpl. rewrite Hp, Hs, Hc, He, H1.
  repeat split. subst st1. unfold saveToStorage. simpl. f_equal. f_equal.
  unfold postList. simpl. by apply deref_Some.
Qed.

Lemma updatePost_absent (id title author body : string) (st : State) :
  id ∉ ids (postList st) -> updatePost id title author body st = st.
Proof.
  intros Hn. unfold updatePost.
  destruct (list_find _ _) as [[i post]|] eqn:Hf; [|done].
  apply list_find_Some in Hf as (Hi & Hid & _).
  exfalso. apply Hn. apply list_elem_of_In, in_map_iff.
  exists post. split; [done|]. apply list_elem_of_In.
  by eapply list_elem_of_lookup_2.
Qed.

(** C3. With an id that no post of the list has, [updatePost] changes
    nothing at all and a confirmed [deletePost] leaves the list as it
    was; neither ends in an error (both return a state) and nothing is
    written to the error console. *)
Theorem unknown_id_noop (localeCompare : string -> string -> Z) (id : string) (st : State) :
  id ∉ ids (postList st) ->
  (forall title author body, updatePost id title author body st = st)
  /\ postList (deletePost localeCompare true id st) = postList st
  /\ console (deletePost localeCompare true id st) = console st.
Proof.
  intros Hn. split; [|split].
  - intros title author body. by apply updatePost_absent.
  - destruct (deletePost_postList localeCompare id st) as (E & _).
    rewrite E. by apply filter_other_id.
  - by destruct (deletePost_postList localeCompare id st) as (_ & _ & E & _).
Qed.

Lemma filter_unique_id (id : string) (l : list BlogPost.t) :
  NoDup (ids l) -> id ∈ ids l ->
  exists before post after,
    l = (before ++ post :: after)%list
    /\ BlogPost.id post = id
    /\ List.filter (fun post => negb (String.eqb (BlogPost.id post) id)) l
       = (before ++ after)%list.
Proof.
  intros Hnd Hin.
  apply list_elem_of_In, in_map_iff in Hin. destruct Hin as (p & Hp & Hin).
  apply list_elem_of_In, list_elem_of_split in Hin as (before & after & ->).
  exists before, p, after. split; [done|]. split; [done|].
  unfold ids in Hnd. rewrite List.map_app in Hnd. simpl in Hnd.
  apply NoDup_app in Hnd as (_ & Hdisj & Hnd).
  apply NoDup_cons in Hnd as (Hafter & _).
  rewrite List.filter_app. simpl.
  rewrite Hp, String.eqb_refl. simpl. f_equal.
  - apply filter_other_id. intros Hb. apply (Hdisj _ Hb). rewrite Hp. left.
  - apply filter_other_id. by rewrite <- Hp.
Qed.

(** C4. When the ids of the list are pairwise distinct and one post has
    the given id, a confirmed [deletePost] takes exactly that post out:
    the posts before it and the posts after it stay, in their order,
    and the list is stored. *)
Theorem deletePost_removes_one (localeCompare : string -> string -> Z)
  (id : string) (st : State) :
  NoDup (ids (postList st)) -> id ∈ ids (postList st) ->
  let st' := deletePost localeCompare true id st in
  exists before post after,
    postList st = (before ++ post :: after)%list
    /\ BlogPost.id post = id
    /\ postList st' = (before ++ after)%list
    /\ (id ∉ ids (postList st'))
    /\ length (postList st) = S (length (postList st'))
    /\ storage st' = Some (serialize (postList st')).
Proof.
  intros Hnd Hin st'.
  destruct (deletePost_postList localeCompare id st) as (E & Hs & _).
  destruct (filter_unique_id id _ Hnd Hin) as (before & post & after & Hl & Hid & Hf).
  fold st' in E, Hs.
  exists before, post, after. rewrite E, Hf.
  split; [done|]. split; [done|]. split; [done|]. split; [|split].
  - rewrite <- Hf. intros Hc.
    apply list_elem_of_In, in_map_iff in Hc as (q & Hq & Hc).
    apply filter_In in Hc as (_ & Hc).
    rewrite <- Hq, String.eqb_refl in Hc. discriminate.
  - rewrite Hl, !length_app. simpl. lia.
  - by rewrite Hs, E, Hf.
Qed.

(** ** Submitting the form *)

(** C10. When the form is in [Editing id] and no post has this id any
    more, submitting leaves the list and the stored text as they were
    and brings the form back to [Idle]: [currentEditingId] is [null],
    the three controls hold their default values, the button reads
    "Create Post" and the cancel button is gone. *)
Theorem submit_edit_of_missing_post (localeCompare : string -> string -> Z)
  (uuid : string) (now : Z) (id : string) (st : State) :
  live st -> formState st = Editing id -> id ∉ ids (postList st) ->
  let st' := handleSubmit localeCompare uuid now st in
  postList st' = postList st
  /\ storage st' = storage st
  /\ formState st' = Idle
  /\ currentEditingId st' = None
  /\ value (titleInput (document st')) = defaultValue (titleInput (document st))
  /\ value (authorInput (document st')) = defaultValue (authorInput (document st))
  /\ value (bodyInput (document st')) = defaultValue (bodyInput (document st))
  /\ submitBtn (document st') = CreatePostLabel
  /\ cancelEdit (document st') = false.
Proof.
  intros Hl Hform Hn st'. subst st'. unfold handleSubmit.
  unfold formState in Hform. destruct (editingId st) as [id'|] eqn:He; [|discriminate].
  injection Hform as ->.
  rewrite updatePost_absent by done.
  assert (Hl' : live (resetForm st)) by exact Hl.
  destruct (renderPosts_frame localeCompare (resetForm st) Hl')
    as (_ & Hp & Hs & Hc & _ & Ht & Ha & Hb & Hbtn & Hcancel).
  unfold formState, editingId.
  rewrite Hp, Hs, Hc, Ht, Ha, Hb, Hbtn, Hcancel. simpl.
  repeat split.
Qed.

(** ** Substring search and letter case *)





Lemma truthy_toLowerCase (s : string) :
  JSString.truthy (JSString.toLowerCase s) = JSString.truthy s.
Proof. by destruct s. Qed.

Lemma includes_empty (s : string) : JSString.includes s EmptyString = true.
Proof. by destruct s. Qed.


Lemma kept_filter (st : State) :
  kept st = List.filter (authorMatches (authorFilter (document st))) (postList st).
Proof.
  unfold kept. rewrite truthy_toLowerCase.
  destruct (authorFilter (document st)) as [|c f] eqn:E; simpl; [|done].
  symmetry. apply forallb_filter_id, forallb_forall. intros p _.
  apply includes_empty.
Qed.

(** ** Sorting *)

Section SortFacts.
Context {A : Type}.
Variable comparefn : A -> A -> JSNumber.Number.

Lemma insert_Permutation (x : A) (l : list A) :
  Permutation (JSArray.insert comparefn x l) (x :: l).
Proof.
  induction l as [|y l IH]; simpl; [done|].
  destruct (_ <=? _); [done|].
  rewrite IH. apply perm_swap.
Qed.

Lemma sort_Permutation (l : list A) : Permutation (JSArray.sort comparefn l) l.
Proof.
  induction l as [|x l IH]; simpl; [done|].
  by rewrite insert_Permutation, IH.
Qed.

(** What sorting needs of the comparator, on the elements that
    satisfy [P]: of two elements one does not come after the other,
    and not coming after is transitive. *)
Variable P : A -> Prop.
Hypothesis total : forall x y,
    P x -> P y -> ~ notAfter comparefn x y -> notAfter comparefn y x.
Hypothesis transitive : forall x y z,
    P x -> P y -> P z ->
    notAfter comparefn x y -> notAfter comparefn y z -> notAfter comparefn x z.

Lemma insert_StronglySorted (x : A) (l : list A) :
  P x -> Forall P l ->
  StronglySorted (notAfter comparefn) l ->
  StronglySorted (notAfter comparefn) (JSArray.insert comparefn x l).
Proof.
  intros Hx HP. induction 1 as [|y l Hs IH Hall]; simpl.
  - constructor; constructor.
  - apply Forall_cons in HP as [Hy HP].
    destruct (Z.leb_spec (JSArray.SortCompare comparefn x y) 0) as [Hle|Hgt].
    + constructor; [by constructor|].
      constructor; [done|].
      rewrite Forall_forall in Hall, HP. apply Forall_forall. intros z Hz.
      eapply (transitive x y z); eauto.
    + constructor; [by apply IH|].
      eapply Permutation_Forall; [symmetry; apply insert_Permutation|].
      constructor; [|done]. apply total; [done..|]. unfold notAfter. lia.
Qed.

Lemma sort_StronglySorted (l : list A) :
  Forall P l -> StronglySorted (notAfter comparefn) (JSArray.sort comparefn l).
Proof.
  induction l as [|x l IH]; simpl; intros HP; [constructor|].
  apply Forall_cons in HP as [Hx HP].
  apply insert_StronglySorted; [done| |by apply IH].
  eapply Permutation_Forall; [symmetry; apply sort_Permutation | done].
Qed.

Lemma StronglySorted_weaken (R R' : A -> A -> Prop) (l : list A) :
  (forall x y, P x -> P y -> R x y -> R' x y) ->
  Forall P l -> StronglySorted R l -> StronglySorted R' l.
Proof.
  intros Himp HP. induction 1 as [|x l Hs IH Hall]; [constructor|].
  apply Forall_cons in HP as [Hx HP].
  constructor; [by apply IH|].
  rewrite Forall_forall in Hall, HP. apply Forall_forall. intros y Hy.
  apply Himp; auto.
Qed.
End SortFacts.

(** ** The list operation *)

Lemma view_eq localeCompare st :
  view localeCompare st
  = JSArray.sort (compareFn localeCompare (sortSelect (document st))) (kept st).
Proof.
  unfold view. rewrite getFilteredAndSortedPosts_eq. simpl.
  apply deref_Some, lookup_insert_eq.
Qed.


(** ** Texts beyond U+00FF *)

Lemma ofString_modelled (s : string) : forallb Wide.modelled (Wide.ofString s) = true.
Proof.
  induction s as [|c r IH]; [done|].
  simpl. rewrite IH, andb_true_r. unfold Wide.modelled.
  pose proof (N_ascii_bounded c) as Hc. apply N.ltb_lt in Hc. by rewrite Hc.
Qed.

Lemma lowerCodeUnit_ofAscii (c : ascii) :
  Wide.lowerCodeUnit (N_of_ascii c) = N_of_ascii (JSString.lowerCodeUnit c).
Proof. destruct c as [[] [] [] [] [] [] [] []]; reflexivity. Qed.

Lemma ofAscii_not_sigma (c : ascii) : (N_of_ascii c =? 931)%N = false.
Proof. apply N.eqb_neq. pose proof (N_ascii_bounded c). lia. Qed.

Lemma lower_ofString (s : string) : forall before,
  Wide.lower before (Wide.ofString s) = Wide.ofString (JSString.toLowerCase s).
Proof.
  induction s as [|c r IH]; intros before; [done|].
  simpl. by rewrite ofAscii_not_sigma, lowerCodeUnit_ofAscii, IH.
Qed.

Lemma toLowerCase_ofString (s : string) :
  Wide.toLowerCase (Wide.ofString s) = Normal (Wide.ofString (JSString.toLowerCase s)).
Proof. unfold Wide.toLowerCase. by rewrite ofString_modelled, lower_ofString. Qed.

Lemma ofAscii_eqb (c d : ascii) : (N_of_ascii c =? N_of_ascii d)%N = Ascii.eqb c d.
Proof.
  destruct (Ascii.eqb_spec c d) as [->|Hne]; [apply N.eqb_refl|].
  apply N.eqb_neq. intros E. apply Hne.
  by rewrite <- (ascii_N_embedding c), <- (ascii_N_embedding d), E.
Qed.

Lemma startsWith_ofString (search : string) : forall s,
  Wide.startsWith (Wide.ofString s) (Wide.ofString search) = JSString.startsWith s search.
Proof.
  induction search as [|c search IH]; intros s; [by destruct s|].
  destruct s as [|d s]; [done|]. simpl. by rewrite ofAscii_eqb, IH.
Qed.

Lemma includes_ofString (s search : string) :
  Wide.includes (Wide.ofString s) (Wide.ofString search) = JSString.includes s search.
Proof.
  induction s as [|d s IH].
  - simpl. by rewrite <- (startsWith_ofString search EmptyString).
  - change (Wide.includes (Wide.ofString (String d s)) (Wide.ofString search))
      with (Wide.startsWith (Wide.ofString (String d s)) (Wide.ofString search)
            || Wide.includes (Wide.ofString s) (Wide.ofString search)).
    rewrite startsWith_ofString, IH. reflexivity.
Qed.

Lemma truthy_ofString (s : string) : Wide.truthy (Wide.ofString s) = JSString.truthy s.
Proof. by destruct s. Qed.

Lemma insert_map {A B : Type} (f : A -> B) (cmpA : A -> A -> JSNumber.Number)
    (cmpB : B -> B -> JSNumber.Number) (x : A) (l : list A) :
  (forall x y, cmpB (f x) (f y) = cmpA x y) ->
  JSArray.insert cmpB (f x) (List.map f l) = List.map f (JSArray.insert cmpA x l).
Proof.
  intros Hc. induction l as [|y l IH]; [done|].
  simpl. unfold JSArray.SortCompare. rewrite Hc.
  destruct (_ <=? _); [done|]. simpl. by rewrite IH.
Qed.

Lemma sort_map {A B : Type} (f : A -> B) (cmpA : A -> A -> JSNumber.Number)
    (cmpB : B -> B -> JSNumber.Number) (l : list A) :
  (forall x y, cmpB (f x) (f y) = cmpA x y) ->
  JSArray.sort cmpB (List.map f l) = List.map f (JSArray.sort cmpA l).
Proof.
  intros Hc. induction l as [|x l IH]; [done|].
  simpl. rewrite IH. by apply insert_map.
Qed.

Lemma filterC_widen (filterText : string) (l : list BlogPost.t) :
  Wide.filterC
    (fun post => a ← Wide.toLowerCase (Wide.author post);
                 Normal (Wide.includes a (Wide.ofString filterText)))
    (List.map widen l)
  = Normal (List.map widen
              (List.filter
                 (fun post => JSString.includes (JSString.toLowerCase (BlogPost.author post))
                                                filterText) l)).
Proof.
  induction l as [|p l IH]; [done|].
  cbn [List.map Wide.filterC List.filter]. rewrite IH.
  change (Wide.author (widen p)) with (Wide.ofString (BlogPost.author p)).
  rewrite toLowerCase_ofString. cbn [mbind Completion_bind bindC].
  rewrite includes_ofString. by destruct (JSString.includes _ _).
Qed.

(** On strings of U+0000..U+00FF the list operation on texts is the
    one of the embedding. *)
Lemma view_widen (localeCompare : string -> string -> Z)
    (wideCompare : Wide.Text -> Wide.Text -> Z) (st : State) :
  (forall a b, wideCompare (Wide.ofString a) (Wide.ofString b) = localeCompare a b) ->
  Wide.getFilteredAndSortedPosts wideCompare
    (Wide.ofString (authorFilter (document st))) (sortSelect (document st))
    (List.map widen (postList st))
  = Normal (List.map widen (view localeCompare st)).
Proof.
  intros Hc. unfold Wide.getFilteredAndSortedPosts.
  rewrite toLowerCase_ofString. cbn [mbind Completion_bind bindC].
  rewrite truthy_ofString, view_eq. unfold kept.
  destruct (JSString.truthy _).
  - rewrite filterC_widen. cbn [mbind Completion_bind bindC]. f_equal.
    apply sort_map. intros x y. unfold Wide.compareFn, compareFn. simpl. by rewrite Hc.
  - cbn [mbind Completion_bind bindC]. f_equal.
    apply sort_map. intros x y. unfold Wide.compareFn, compareFn. simpl. by rewrite Hc.
Qed.


(** ** The order of the view *)

Lemma kept_Forall (P : BlogPost.t -> Prop) (st : State) :
  Forall P (postList st) -> Forall P (kept st).
Proof.
  intros H. rewrite kept_filter. rewrite Forall_forall in H. apply Forall_forall.
  intros p Hp. apply H. apply list_elem_of_In in Hp. apply list_elem_of_In.
  apply filter_In in Hp. tauto.
Qed.

Lemma dated_hasTime (p : BlogPost.t) : dated p -> hasTime p.
Proof. unfold dated, hasTime. by destruct (BlogPost.timestamp p). Qed.

Lemma view_ascendingByAuthor localeCompare st :
  consistentComparator localeCompare ->
  sortSelect (document st) = "author" ->
  ascendingByAuthor localeCompare (view localeCompare st).
Proof.
  intros [Htot Htrans] Hkey. rewrite view_eq, Hkey.
  unfold ascendingByAuthor.
  eapply (StronglySorted_weaken (fun _ => True)); [| |apply (sort_StronglySorted _ (fun _ => True))].
  - intros x y _ _ H. exact H.
  - apply Forall_forall. done.
  - intros x y _ _ H. unfold notAfter, JSArray.SortCompare, compareFn in *. simpl in *.
    apply Htot. lia.
  - intros x y z _ _ _. unfold notAfter, JSArray.SortCompare, compareFn. simpl.
    apply Htrans.
  - apply Forall_forall. done.
Qed.

Lemma view_newestFirst localeCompare st :
  sortSelect (document st) <> "author" ->
  Forall hasTime (postList st) ->
  newestFirst (view localeCompare st).
Proof.
  intros Hkey Hvalid. rewrite view_eq.
  apply String.eqb_neq in Hkey.
  assert (Hk : Forall hasTime (kept st)) by (by apply kept_Forall).
  assert (Hcmp : forall x y, hasTime x -> hasTime y ->
            exists tx ty, BlogPost.timestamp x = JSDate.TimeValue tx
                          /\ BlogPost.timestamp y = JSDate.TimeValue ty
                          /\ JSArray.SortCompare
                               (compareFn localeCompare (sortSelect (document st))) x y
                             = ty - tx).
  { intros x y Hx Hy. unfold hasTime in *.
    unfold JSArray.SortCompare, compareFn. rewrite Hkey.
    destruct (BlogPost.timestamp x) as [tx|]; [|done].
    destruct (BlogPost.timestamp y) as [ty|]; [|done].
    by exists tx, ty. }
  unfold newestFirst.
  eapply (StronglySorted_weaken hasTime); [| |apply (sort_StronglySorted _ hasTime)].
  - intros x y Hx Hy H ta tb Ha Hb.
    destruct (Hcmp x y Hx Hy) as (tx & ty & Ex & Ey & E).
    unfold notAfter in H. rewrite E in H. rewrite Ex in Ha. rewrite Ey in Hb.
    injection Ha as <-. injection Hb as <-. lia.
  - eapply Permutation_Forall; [symmetry; apply sort_Permutation | done].
  - intros x y Hx Hy H.
    destruct (Hcmp x y Hx Hy) as (tx & ty & Ex & Ey & E).
    destruct (Hcmp y x Hy Hx) as (ty' & tx' & Ey' & Ex' & E').
    unfold notAfter in *. rewrite E in H. rewrite E'.
    rewrite Ex in Ex'. rewrite Ey in Ey'.
    injection Ex' as <-. injection Ey' as <-. lia.
  - intros x y z Hx Hy Hz H1 H2.
    destruct (Hcmp x y Hx Hy) as (tx & ty & Ex & Ey & E).
    destruct (Hcmp y z Hy Hz) as (ty' & tz & Ey' & Ez & E').
    destruct (Hcmp x z Hx Hz) as (tx' & tz' & Ex' & Ez' & E'').
    unfold notAfter in *. rewrite E in H1. rewrite E' in H2. rewrite E''.
    rewrite Ex in Ex'. rewrite Ey in Ey'. rewrite Ez in Ez'.
    injection Ex' as <-. injection Ey' as <-. injection Ez' as <-. lia.
  - done.
Qed.

(** C6, in the order of [localeCompare] and for lists of valid dates.
    With a [localeCompare] that orders the strings, the list operation
    under the sort key [author] returns the filtered posts in
    ascending order of author as [localeCompare] has it; under any
    other sort key, when every post of the list has a valid date, it
    returns them newest first. *)
Theorem view_sorted (localeCompare : string -> string -> Z) (st : State) :
  consistentComparator localeCompare ->
  (sortSelect (document st) = "author" ->
   ascendingByAuthor localeCompare (view localeCompare st))
  /\ (sortSelect (document st) <> "author" ->
      Forall dated (postList st) ->
      newestFirst (view localeCompare st)).
Proof.
  intros Hc. split.
  - by apply view_ascendingByAuthor.
  - intros Hkey Hd. apply view_newestFirst; [done|].
    eapply Forall_impl; [exact Hd|]. intros p Hp. by apply dated_hasTime.
Qed.

Lemma codeUnitCompare_consistent : consistentComparator codeUnitCompare.
Proof.
  unfold consistentComparator, codeUnitCompare. split.
  - intros a b. rewrite (String.compare_antisym b a).
    destruct (String.compare a b); simpl; lia.
  - intros a b c.
    destruct (String.compare a b) eqn:Eab; [| |lia].
    + apply String.compare_eq_iff in Eab as ->. tauto.
    + destruct (String.compare b c) eqn:Ebc; [| |lia].
      * apply String.compare_eq_iff in Ebc as <-. rewrite Eab. lia.
      * assert (E : String.compare a c = Lt).
        { exact (StrictOrder_Transitive (R := String_as_OT.lt) a b c Eab Ebc). }
        rewrite E. lia.
Qed.

Example view_by_date :
  view codeUnitCompare (stateWith [postA; postB] "date" "") = [postB; postA].
Proof. vm_compute. reflexivity. Qed.

Example view_by_author :
  view codeUnitCompare (stateWith [postA; postB] "author" "") = [postB; postA].
Proof. vm_compute. reflexivity. Qed.

Lemma view_sorted_witness :
  consistentComparator codeUnitCompare
  /\ sortSelect (document (stateWith [postA; postB] "author" "")) = "author"
  /\ ascendingByAuthor codeUnitCompare
       (view codeUnitCompare (stateWith [postA; postB] "author" ""))
  /\ view codeUnitCompare (stateWith [postA; postB] "author" "") = [postB; postA]
  /\ sortSelect (document (stateWith [postA; postB] "date" "")) <> "author"
  /\ Forall dated (postList (stateWith [postA; postB] "date" ""))
  /\ newestFirst (view codeUnitCompare (stateWith [postA; postB] "date" ""))
  /\ view codeUnitCompare (stateWith [postA; postB] "date" "") = [postB; postA].
Proof.
  assert (Ha : sortSelect (document (stateWith [postA; postB] "author" "")) = "author")
    by reflexivity.
  assert (Hn : sortSelect (document (stateWith [postA; postB] "date" "")) <> "author")
    by discriminate.
  assert (Hd : Forall dated (postList (stateWith [postA; postB] "date" "")))
    by (change (Forall dated [postA; postB]); repeat constructor).
  split; [exact codeUnitCompare_consistent|].
  split; [exact Ha|].
  split; [exact (proj1 (view_sorted codeUnitCompare (stateWith [postA; postB] "author" "")
                          codeUnitCompare_consistent) Ha)|].
  split; [vm_compute; reflexivity|].
  split; [exact Hn|]. split; [exact Hd|].
  split; [exact (proj2 (view_sorted codeUnitCompare (stateWith [postA; postB] "date" "")
                          codeUnitCompare_consistent) Hn Hd)|].
  vm_compute; reflexivity.
Defined.

(** C6 fails in both of its parts.  [localeCompare] is no comparison
    of code units: it puts the author [ann] before [Bob], which the
    lexicographic order puts after.  And sorted by date, the posts
    dated 1 and 2 stay in this order around a post with an Invalid
    Date. *)
Lemma view_sorted_counterexample :
  lexicographicByAuthor [postA; postC]
  /\ view letterCompare (stateWith [postA; postC] "author" "") = [postC; postA]
  /\ ~ lexicographicByAuthor (view letterCompare (stateWith [postA; postC] "author" ""))
  /\ view codeUnitCompare (stateWith [postA; postX; postB] "date" "") = [postA; postX; postB]
  /\ ~ newestFirst (view codeUnitCompare (stateWith [postA; postX; postB] "date" "")).
Proof.
  assert (E1 : view letterCompare (stateWith [postA; postC] "author" "") = [postC; postA])
    by (vm_compute; reflexivity).
  assert (E2 : view codeUnitCompare (stateWith [postA; postX; postB] "date" "")
               = [postA; postX; postB]) by (vm_compute; reflexivity).
  split.
  { unfold lexicographicByAuthor, ascendingByAuthor.
    repeat constructor. vm_compute. discriminate. }
  split; [exact E1|]. split.
  { rewrite E1. unfold lexicographicByAuthor, ascendingByAuthor. intros H.
    apply StronglySorted_inv in H as [_ H]. apply Forall_cons in H as [H _].
    vm_compute in H. by apply H. }
  split; [exact E2|].
  rewrite E2. intros H.
  apply StronglySorted_inv in H as [_ H].
  apply Forall_cons in H as [_ H]. apply Forall_cons in H as [H _].
  specialize (H 1 2 eq_refl eq_refl). lia.
Qed.

(** ** Dates: the ISO format and back *)

Section DateFacts.
Import JSDate.

Lemma digit_cases (d : Z) : 0 <= d < 10 ->
  d = 0 \/ d = 1 \/ d = 2 \/ d = 3 \/ d = 4 \/ d = 5 \/ d = 6 \/ d = 7 \/ d = 8 \/ d = 9.
Proof. lia. Qed.

Lemma digit_val_digit (d : Z) : 0 <= d < 10 -> Decimal.digit_val (Decimal.digit d) = Some d.
Proof.
  intros H. destruct (digit_cases d H) as [->|[->|[->|[->|[->|[->|[->|[->|[->| ->]]]]]]]]];
    reflexivity.
Qed.

Lemma expect_digit (c : ascii) (d : Z) (r : string) :
  0 <= d < 10 -> Decimal.digit_val c = None -> expect c (String (Decimal.digit d) r) = None.
Proof.
  intros H Hc. unfold expect.
  destruct (Ascii.eqb_spec c (Decimal.digit d)) as [->|]; [|done].
  rewrite digit_val_digit in Hc by done. discriminate.
Qed.

Lemma pad_acc_app (w : nat) : forall n acc rest,
  Decimal.pad_acc w n acc +:+ rest = Decimal.pad_acc w n (acc +:+ rest).
Proof.
  induction w as [|w IH]; intros n acc rest; simpl; [done|].
  by rewrite IH.
Qed.

Lemma pad_acc_head (w : nat) : forall n acc,
  exists d r, 0 <= d < 10 /\ Decimal.pad_acc (S w) n acc = String (Decimal.digit d) r.
Proof.
  induction w as [|w IH]; intros n acc.
  - exists (n mod 10), acc. split; [|done]. apply Z.mod_pos_bound. lia.
  - change (Decimal.pad_acc (S (S w)) n acc)
      with (Decimal.pad_acc (S w) (n / 10) (String (Decimal.digit (n mod 10)) acc)).
    apply IH.
Qed.

Lemma take_acc_pad_acc (w : nat) : forall k n a acc,
  Decimal.take_acc (w + k) a (Decimal.pad_acc w n acc)
  = Decimal.take_acc k (a * 10 ^ Z.of_nat w + n mod 10 ^ Z.of_nat w) acc.
Proof.
  induction w as [|w IH]; intros k n a acc.
  - simpl. rewrite Z.mod_1_r. f_equal. lia.
  - change (Decimal.pad_acc (S w) n acc)
      with (Decimal.pad_acc w (n / 10) (String (Decimal.digit (n mod 10)) acc)).
    replace (S w + k)%nat with (w + S k)%nat by lia.
    rewrite IH. simpl Decimal.take_acc.
    rewrite digit_val_digit by (apply Z.mod_pos_bound; lia).
    f_equal.
    rewrite Nat2Z.inj_succ, Z.pow_succ_r by lia.
    assert (Hp : 0 < 10 ^ Z.of_nat w) by (apply Z.pow_pos_nonneg; lia).
    rewrite (Z.rem_mul_r n 10 (10 ^ Z.of_nat w)) by lia.
    lia.
Qed.

Lemma take_pad (w : nat) (n : Z) (rest : string) :
  0 <= n < 10 ^ Z.of_nat w ->
  Decimal.take w (Decimal.pad w n +:+ rest) = Some (n, rest).
Proof.
  intros H. unfold Decimal.take, Decimal.pad.
  rewrite pad_acc_app. simpl String.append.
  replace w with (w + 0)%nat at 1 by lia.
  rewrite take_acc_pad_acc. simpl. rewrite Z.mod_small by done. done.
Qed.

Lemma DayFromYear_succ y : DayFromYear (y + 1) = DayFromYear y + DaysInYear y.
Proof.
  unfold DayFromYear, DaysInYear, InLeapYear_of.
  repeat match goal with |- context [?a =? ?b] => destruct (Z.eqb_spec a b) end; simpl;
  Z.div_mod_to_equations; lia.
Qed.

Lemma YearFromDay_spec d :
  DayFromYear (YearFromDay d) <= d < DayFromYear (YearFromDay d + 1).
Proof.
  unfold YearFromDay.
  set (y0 := 1970 + d * 400 / 146097).
  assert (H1 : DayFromYear (y0 - 1) <= d).
  { unfold DayFromYear, y0. Z.div_mod_to_equations. lia. }
  assert (H2 : d < DayFromYear (y0 + 2)).
  { unfold DayFromYear, y0. Z.div_mod_to_equations. lia. }
  destruct (Z.leb_spec (DayFromYear (y0 + 1)) d).
  - replace (y0 + 1 + 1) with (y0 + 2) by lia. lia.
  - destruct (Z.leb_spec (DayFromYear y0) d).
    + lia.
    + replace (y0 - 1 + 1) with y0 by lia. lia.
Qed.

Lemma DayFromYear_mono a b : a <= b -> DayFromYear a <= DayFromYear b.
Proof.
  intros H. replace b with (a + Z.of_nat (Z.to_nat (b - a))) by lia.
  induction (Z.to_nat (b - a)) as [|n IH].
  - replace (a + Z.of_nat 0) with a by lia. lia.
  - replace (a + Z.of_nat (S n)) with (a + Z.of_nat n + 1) by lia.
    rewrite DayFromYear_succ. unfold DaysInYear. destruct (InLeapYear_of _); lia.
Qed.

(** [YearFromDay d] is the largest year that starts on or before [d]. *)
Lemma YearFromDay_largest d y : DayFromYear y <= d -> y <= YearFromDay d.
Proof.
  intros H. destruct (YearFromDay_spec d) as [_ Hlt].
  destruct (Z.le_gt_cases y (YearFromDay d)) as [|Hgt]; [done|].
  pose proof (DayFromYear_mono (YearFromDay d + 1) y). lia.
Qed.

Lemma YearFromTime_range t :
  inRange t = true -> -271821 <= YearFromTime t <= 275760.
Proof.
  unfold inRange, maxTime, YearFromTime. intros H.
  apply andb_true_iff in H as [H1 H2]. apply Z.leb_le in H1, H2.
  destruct (YearFromDay_spec (Day t)) as [Hlo Hhi].
  revert Hlo Hhi. generalize (YearFromDay (Day t)). intros y Hlo Hhi.
  unfold Day, msPerDay, DayFromYear in *. Z.div_mod_to_equations. lia.
Qed.

Lemma DayWithinYear_range t :
  0 <= DayWithinYear t < (if InLeapYear t then 366 else 365).
Proof.
  unfold DayWithinYear, InLeapYear, YearFromTime.
  pose proof (YearFromDay_spec (Day t)) as H.
  rewrite DayFromYear_succ in H. unfold DaysInYear in H.
  destruct (InLeapYear_of _); lia.
Qed.

Lemma monthOfDay_spec (leap : bool) (d : Z) :
  0 <= d < (if leap then 366 else 365) ->
  0 <= monthOfDay leap d <= 11
  /\ monthStart leap (monthOfDay leap d) <= d < monthStart leap (monthOfDay leap d + 1).
Proof.
  intros H. destruct leap; unfold monthOfDay; cbn in *;
  repeat match goal with
         | |- context [?a <? ?b] => destruct (Z.ltb_spec a b)
         end;
  repeat match goal with
         | |- context [monthStart ?b ?m] =>
             let v := eval vm_compute in (monthStart b m) in
             change (monthStart b m) with v
         end; lia.
Qed.

Lemma MakeTime_fields t :
  MakeTime (HourFromTime t) (MinFromTime t) (SecFromTime t) (msFromTime t)
  = TimeWithinDay t.
Proof.
  unfold MakeTime, HourFromTime, MinFromTime, SecFromTime, msFromTime, TimeWithinDay,
    msPerHour, msPerMinute, msPerSecond, msPerDay.
  Z.div_mod_to_equations. lia.
Qed.

Lemma MakeDay_fields t :
  MakeDay (YearFromTime t) (MonthFromTime t) (DateFromTime t) = Day t.
Proof.
  unfold MakeDay, DateFromTime, MonthFromTime, DayWithinYear, InLeapYear. lia.
Qed.

Lemma MakeDate_fields t : MakeDate (Day t) (TimeWithinDay t) = t.
Proof.
  unfold MakeDate, Day, TimeWithinDay, msPerDay. Z.div_mod_to_equations. lia.
Qed.

Lemma parseYear_yearString (y : Z) (rest : string) :
  -271821 <= y <= 275760 ->
  parseYear (yearString y +:+ rest) = Some (y, rest).
Proof.
  intros H. unfold yearString.
  destruct ((0 <=? y) && (y <=? 9999)) eqn:E.
  - apply andb_true_iff in E as [E1 E2]. apply Z.leb_le in E1, E2.
    unfold parseYear.
    destruct (pad_acc_head 3 y EmptyString) as (d & r & Hd & Hp).
    fold (Decimal.pad 4 y) in Hp.
    assert (Hh : forall c, Decimal.digit_val c = None ->
                           expect c (Decimal.pad 4 y +:+ rest) = None).
    { intros c Hc. rewrite Hp. simpl. by apply expect_digit. }
    rewrite !Hh by reflexivity.
    apply take_pad. change (10 ^ Z.of_nat 4) with 10000. lia.
  - destruct (Z.ltb_spec y 0).
    + change (("-" +:+ Decimal.pad 6 (- y)) +:+ rest)
        with (String "-" (Decimal.pad 6 (- y) +:+ rest)).
      unfold parseYear.
      change (expect "+" (String "-" (Decimal.pad 6 (- y) +:+ rest))) with (@None string).
      change (expect "-" (String "-" (Decimal.pad 6 (- y) +:+ rest)))
        with (Some (Decimal.pad 6 (- y) +:+ rest)).
      cbv beta iota.
      rewrite take_pad by (change (10 ^ Z.of_nat 6) with 1000000; lia).
      change ((if - y =? 0 then None else Some (- - y, rest)) = Some (y, rest)).
      destruct (Z.eqb_spec (- y) 0); [lia|]. f_equal. f_equal. lia.
    + change (("+" +:+ Decimal.pad 6 y) +:+ rest)
        with (String "+" (Decimal.pad 6 y +:+ rest)).
      unfold parseYear.
      change (expect "+" (String "+" (Decimal.pad 6 y +:+ rest)))
        with (Some (Decimal.pad 6 y +:+ rest)).
      cbv beta iota.
      apply take_pad. change (10 ^ Z.of_nat 6) with 1000000.
      apply andb_false_iff in E as [E|E]; [apply Z.leb_gt in E | apply Z.leb_gt in E]; lia.
Qed.

Lemma DaysInMonth_bound (leap : bool) (m : Z) :
  0 <= m <= 11 -> 28 <= DaysInMonth leap m <= 31.
Proof.
  intros H.
  assert (C : m = 0 \/ m = 1 \/ m = 2 \/ m = 3 \/ m = 4 \/ m = 5 \/ m = 6
              \/ m = 7 \/ m = 8 \/ m = 9 \/ m = 10 \/ m = 11) by lia.
  destruct leap;
    destruct C as [->|[->|[->|[->|[->|[->|[->|[->|[->|[->|[->| ->]]]]]]]]]]];
    vm_compute; split; discriminate.
Qed.

Lemma option_bind_Some {A B : Type} (f : A -> option B) (x : A) : (Some x ≫= f) = f x.
Proof. reflexivity. Qed.

Lemma expect_app (c : ascii) (rest : string) :
  expect c (String c EmptyString +:+ rest) = Some rest.
Proof. simpl. by rewrite Ascii.eqb_refl. Qed.

Lemma leb_range (lo x hi : Z) : lo <= x <= hi -> (lo <=? x) && (x <=? hi) = true.
Proof. intros H. apply andb_true_iff. split; apply Z.leb_le; lia. Qed.

Lemma parseISO_toISOString (t : Z) :
  inRange t = true -> parseISO (toISOString t) = Some t.
Proof.
  intros Hr.
  pose proof (YearFromTime_range t Hr) as Hy.
  pose proof (DayWithinYear_range t) as Hd.
  pose proof (monthOfDay_spec (InLeapYear t) (DayWithinYear t) Hd) as [Hm Hdate].
  fold (MonthFromTime t) in Hm, Hdate.
  assert (Hh : 0 <= HourFromTime t < 24) by (apply Z.mod_pos_bound; lia).
  assert (Hmi : 0 <= MinFromTime t < 60) by (apply Z.mod_pos_bound; lia).
  assert (Hs : 0 <= SecFromTime t < 60) by (apply Z.mod_pos_bound; lia).
  assert (Hms : 0 <= msFromTime t < 1000) by (apply Z.mod_pos_bound; unfold msPerSecond; lia).
  assert (Hdt : 1 <= DateFromTime t
                <= DaysInMonth (InLeapYear_of (YearFromTime t)) (MonthFromTime t)).
  { unfold DateFromTime, DaysInMonth. fold (InLeapYear t). lia. }
  assert (Hdt2 : DateFromTime t < 100).
  { pose proof (DaysInMonth_bound (InLeapYear_of (YearFromTime t)) _ Hm). lia. }
  unfold toISOString, parseISO.
  rewrite parseYear_yearString by done.
  repeat first
    [ rewrite option_bind_Some; cbv beta iota
    | rewrite expect_app
    | rewrite take_pad by (first [change (10 ^ Z.of_nat 2) with 100
                                 | change (10 ^ Z.of_nat 3) with 1000]; lia) ].
  change (String.eqb EmptyString EmptyString) with true. cbv beta iota.
  change (negb true) with false. cbv beta iota.
  replace (MonthFromTime t + 1 - 1) with (MonthFromTime t) by lia.
  rewrite (leb_range 1 (MonthFromTime t + 1) 12) by lia.
  rewrite (leb_range 1 (DateFromTime t) _) by done.
  replace (HourFromTime t <=? 23) with true by (symmetry; apply Z.leb_le; lia).
  rewrite (proj2 (Z.leb_le (MinFromTime t) 59)) by lia.
  rewrite (proj2 (Z.leb_le (SecFromTime t) 59)) by lia.
  cbn [negb orb andb].
  by rewrite MakeDay_fields, MakeTime_fields, MakeDate_fields.
Qed.

Lemma parse_toISOString hostDateParse (t : Z) :
  inRange t = true -> parse hostDateParse (toISOString t) = TimeValue t.
Proof.
  intros H. unfold parse. rewrite parseISO_toISOString by done.
  unfold TimeClip. by rewrite H.
Qed.

End DateFacts.

(** ** JSON: serializing and parsing back *)

Lemma parseChars_quoteCodeUnit (c : ascii) (tail : string) :
  JSON.parseChars (JSON.quoteCodeUnit c +:+ tail)
  = '(str, rest) ← JSON.parseChars tail; Normal (String c str, rest).
Proof.
  destruct c as [[] [] [] [] [] [] [] []]; reflexivity.
Qed.

Lemma app_assoc_string (a b c : string) : (a +:+ b) +:+ c = a +:+ (b +:+ c).
Proof. induction a as [|x a IH]; simpl; [done | f_equal; exact IH]. Qed.

Lemma parseChars_quoteBody (s rest : string) :
  JSON.parseChars (JSON.quoteBody s +:+ String JSON.quotationMark rest) = Normal (s, rest).
Proof.
  induction s as [|c s IH]; [reflexivity|].
  simpl JSON.quoteBody. rewrite app_assoc_string, parseChars_quoteCodeUnit, IH.
  reflexivity.
Qed.

Lemma length_app_string (a b : string) :
  String.length (a +:+ b) = (String.length a + String.length b)%nat.
Proof. induction a as [|x a IH]; simpl; [done | by rewrite IH]. Qed.

Lemma stringify_opens (v : JSON.value) (rest : string) :
  numberFree v = true -> opens (JSON.stringify v +:+ rest).
Proof.
  destruct v as [|[]|lit|s|vs|ms]; simpl; intros H; try discriminate;
    eexists _, _; (split; [reflexivity|]); done.
Qed.

Lemma opens_skip (s : string) : opens s -> JSON.skipWhitespace s = s.
Proof. intros (c & r & -> & Hw & _). simpl. by rewrite Hw. Qed.

Lemma opens_not_close (s : string) :
  opens s -> JSON.next "]" s = None /\ JSON.next "}" s = None.
Proof. intros (c & r & -> & _ & H1 & H2). unfold JSON.next. by rewrite H1, H2. Qed.

Lemma join_cons (sep x : string) (l : list string) :
  l <> [] -> JSON.join sep (x :: l) = x +:+ sep +:+ JSON.join sep l.
Proof. by destruct l. Qed.

Lemma parse_stringify_fuel (fuel : nat) :
  (forall v rest, numberFree v = true -> (need v <= fuel)%nat ->
     JSON.parseValue fuel (JSON.stringify v +:+ rest) = Normal (v, rest))
  /\ (forall vs rest, vs <> [] -> forallb numberFree vs = true ->
       (list_sum (List.map (fun v => S (need v)) vs) <= fuel)%nat ->
       JSON.parseElements fuel (elementsText vs +:+ String "]" rest) = Normal (vs, rest))
  /\ (forall ms rest, ms <> [] -> forallb (fun m => numberFree (snd m)) ms = true ->
       (list_sum (List.map (fun m => S (need (snd m))) ms) <= fuel)%nat ->
       JSON.parseMembers fuel (membersText ms +:+ String "}" rest) = Normal (ms, rest)).
Proof.
  induction fuel as [|fuel (IHv & IHe & IHm)].
  - split; [|split].
    + intros v rest _ H. destruct v; simpl in H; lia.
    + intros [|v vs] rest Hne _ H; [done|]. simpl in H. lia.
    + intros [|m ms] rest Hne _ H; [done|]. simpl in H. lia.
  - split; [|split].
    + intros v rest Hnf Hneed. destruct v as [|[]|lit|s|vs|ms]; try reflexivity.
      * discriminate.
      * (* string *)
        simpl. unfold JSON.quote. simpl.
        rewrite app_assoc_string. simpl.
        by rewrite parseChars_quoteBody.
      * (* array *)
        simpl in Hnf, Hneed. destruct vs as [|v vs]; [reflexivity|].
        change (JSON.stringify (JSON.Array (v :: vs)))
          with ("[" +:+ elementsText (v :: vs) +:+ "]").
        rewrite !app_assoc_string. simpl String.append.
        assert (Ho : opens (elementsText (v :: vs) +:+ String "]" rest)).
        { unfold elementsText. simpl List.map. simpl in Hnf.
          apply andb_true_iff in Hnf as [Hv _].
          destruct vs as [|v' vs].
          - simpl JSON.join. by apply stringify_opens.
          - rewrite join_cons by done. rewrite app_assoc_string.
            by apply stringify_opens. }
        simpl JSON.parseValue.
        rewrite (opens_skip _ Ho). destruct (opens_not_close _ Ho) as [-> _].
        rewrite IHe; [reflexivity|done|done|lia].
      * (* object *)
        simpl in Hnf, Hneed. destruct ms as [|m ms]; [reflexivity|].
        change (JSON.stringify (JSON.Object (m :: ms)))
          with ("{" +:+ membersText (m :: ms) +:+ "}").
        rewrite !app_assoc_string. simpl String.append.
        assert (Ho : opens (membersText (m :: ms) +:+ String "}" rest)).
        { unfold membersText. simpl List.map.
          destruct ms as [|m' ms].
          - simpl JSON.join. unfold memberText, JSON.quote. simpl.
            eexists _, _. split; [reflexivity|]. done.
          - rewrite join_cons by done. unfold memberText at 1, JSON.quote. simpl.
            eexists _, _. split; [reflexivity|]. done. }
        simpl JSON.parseValue.
        rewrite (opens_skip _ Ho). destruct (opens_not_close _ Ho) as [_ ->].
        rewrite IHm; [reflexivity|done|done|lia].
    + intros [|v vs] rest Hne Hnf Hneed; [done|].
      simpl in Hnf, Hneed. apply andb_true_iff in Hnf as [Hv Hvs].
      simpl JSON.parseElements.
      destruct (decide (vs = [])) as [->|Hvs'].
      * unfold elementsText. simpl List.map. simpl JSON.join.
        rewrite (opens_skip _ (stringify_opens v _ Hv)).
        rewrite IHv by (done || lia). reflexivity.
      * unfold elementsText. simpl List.map.
        rewrite join_cons by (by destruct vs).
        rewrite !app_assoc_string.
        rewrite (opens_skip _ (stringify_opens v _ Hv)).
        rewrite IHv by (done || lia).
        fold (elementsText vs). simpl.
        rewrite IHe; [reflexivity|done|done|lia].
    + intros [|[k v] ms] rest Hne Hnf Hneed; [done|].
      simpl in Hnf, Hneed. apply andb_true_iff in Hnf as [Hv Hms].
      simpl JSON.parseMembers.
      destruct (decide (ms = [])) as [->|Hms'].
      * unfold membersText. simpl List.map. simpl JSON.join.
        unfold memberText, JSON.quote. simpl.
        rewrite !app_assoc_string. simpl.
        rewrite parseChars_quoteBody. simpl.
        rewrite (opens_skip _ (stringify_opens v _ Hv)).
        rewrite IHv by (done || lia). reflexivity.
      * unfold membersText. simpl List.map.
        rewrite join_cons by (by destruct ms).
        fold (membersText ms).
        unfold memberText at 1, JSON.quote. simpl.
        rewrite !app_assoc_string. simpl.
        rewrite parseChars_quoteBody. simpl.
        rewrite (opens_skip _ (stringify_opens v _ Hv)).
        rewrite IHv by (done || lia). simpl.
        rewrite IHm; [reflexivity|done|done|lia].
Qed.

Lemma value_induction (P : JSON.value -> Prop) :
  P JSON.Null -> (forall b, P (JSON.Bool b)) -> (forall lit, P (JSON.Number lit)) ->
  (forall s, P (JSON.Str s)) ->
  (forall vs, Forall P vs -> P (JSON.Array vs)) ->
  (forall ms, Forall (fun m => P (snd m)) ms -> P (JSON.Object ms)) ->
  forall v, P v.
Proof.
  intros HNull HBool HNum HStr HArr HObj.
  fix IH 1. intros [|b|lit|s|vs|ms].
  - exact HNull.
  - apply HBool.
  - apply HNum.
  - apply HStr.
  - apply HArr. induction vs as [|v vs IHvs]; constructor; [apply IH | exact IHvs].
  - apply HObj. induction ms as [|[k v] ms IHms]; constructor; [apply IH | exact IHms].
Qed.

Lemma append_nil_r (s : string) : s +:+ EmptyString = s.
Proof. induction s as [|c s IH]; simpl; [done | by rewrite IH]. Qed.

Lemma join_length_elements (vs : list JSON.value) :
  Forall (fun v => numberFree v = true ->
                   (need v <= String.length (JSON.stringify v))%nat) vs ->
  forallb numberFree vs = true ->
  (list_sum (List.map (fun v => S (need v)) vs)
   <= String.length (elementsText vs) + 1)%nat.
Proof.
  induction 1 as [|v vs Hv Hvs IH]; intros Hnf; simpl; [lia|].
  simpl in Hnf. apply andb_true_iff in Hnf as [Hnv Hnvs].
  specialize (Hv Hnv). specialize (IH Hnvs).
  destruct (decide (vs = [])) as [->|Hne].
  - unfold elementsText. simpl. lia.
  - unfold elementsText in *. simpl List.map. rewrite join_cons by (by destruct vs).
    rewrite !length_app_string. change (String.length ",") with 1%nat.
    simpl list_sum. lia.
Qed.

Lemma join_length_members (ms : list (string * JSON.value)) :
  Forall (fun m => numberFree (snd m) = true ->
                   (need (snd m) <= String.length (JSON.stringify (snd m)))%nat) ms ->
  forallb (fun m => numberFree (snd m)) ms = true ->
  (list_sum (List.map (fun m => S (need (snd m))) ms)
   <= String.length (membersText ms) + 1)%nat.
Proof.
  induction 1 as [|m ms Hm Hms IH]; intros Hnf; simpl; [lia|].
  simpl in Hnf. apply andb_true_iff in Hnf as [Hnm Hnms].
  specialize (Hm Hnm). specialize (IH Hnms).
  assert (Hlen : (String.length (JSON.stringify (snd m)) < String.length (memberText m))%nat).
  { unfold memberText, JSON.quote. simpl. rewrite !length_app_string. simpl. lia. }
  destruct (decide (ms = [])) as [->|Hne].
  - unfold membersText.
    change (JSON.join "," (List.map memberText [m])) with (memberText m).
    simpl list_sum. lia.
  - unfold membersText in *. simpl List.map. rewrite join_cons by (by destruct ms).
    rewrite !length_app_string. change (String.length ",") with 1%nat.
    simpl list_sum. lia.
Qed.

Lemma need_le_length (v : JSON.value) :
  numberFree v = true -> (need v <= String.length (JSON.stringify v))%nat.
Proof.
  induction v as [|b|lit|s|vs IH|ms IH] using value_induction; intros Hnf.
  - simpl. lia.
  - destruct b; simpl; lia.
  - discriminate.
  - simpl. lia.
  - simpl in Hnf. pose proof (join_length_elements vs IH Hnf) as H.
    change (JSON.stringify (JSON.Array vs)) with ("[" +:+ elementsText vs +:+ "]").
    simpl need. rewrite !length_app_string. simpl String.length. lia.
  - simpl in Hnf. pose proof (join_length_members ms IH Hnf) as H.
    change (JSON.stringify (JSON.Object ms)) with ("{" +:+ membersText ms +:+ "}").
    simpl need. rewrite !length_app_string. simpl String.length. lia.
Qed.

(** [JSON.parse] gives back the value [JSON.stringify] was given. *)
Lemma JSON_parse_stringify (v : JSON.value) :
  numberFree v = true -> JSON.parse (JSON.stringify v) = Normal v.
Proof.
  intros Hnf. unfold JSON.parse.
  pose proof (stringify_opens v EmptyString Hnf) as Ho.
  rewrite append_nil_r in Ho. rewrite (opens_skip _ Ho).
  destruct (parse_stringify_fuel (S (2 * String.length (JSON.stringify v)))) as (Hv & _).
  specialize (Hv v EmptyString Hnf). rewrite append_nil_r in Hv.
  rewrite Hv; [reflexivity|].
  pose proof (need_le_length v Hnf). lia.
Qed.

(** ** JSON: the descent has enough fuel *)


Lemma skipWhitespace_length (s : string) : (String.length (JSON.skipWhitespace s) <= String.length s)%nat.
Proof. induction s as [|c s IH]; simpl; [lia|]. destruct (JSON.isWhitespace c); simpl; lia. Qed.

Lemma next_length (c : ascii) (s r : string) :
  JSON.next c s = Some r -> String.length s = S (String.length r).
Proof.
  destruct s as [|d s]; simpl; [discriminate|].
  destruct (Ascii.eqb c d); [|discriminate]. by intros [= ->].
Qed.

Lemma bind_Normal_inv {A B : Type} (c : Completion A) (k : A -> Completion B) (b : B) :
  (c ≫= k) = Normal b -> exists a, c = Normal a /\ k a = Normal b.
Proof. destruct c; try discriminate. intros H. by eexists. Qed.

Lemma bind_OutOfFuel_inv {A B : Type} (c : Completion A) (k : A -> Completion B) :
  (c ≫= k) = OutOfFuel -> c = OutOfFuel \/ exists a, c = Normal a /\ k a = OutOfFuel.
Proof. destruct c; try discriminate; intros H; [right; by eexists | by left]. Qed.

Lemma parseChars_length (s str rest : string) :
  JSON.parseChars s = Normal (str, rest) -> (String.length rest < String.length s)%nat.
Proof.
  remember (String.length s) as n eqn:Hn. revert s Hn str rest.
  induction n as [n IH] using lt_wf_ind. intros s -> str rest H.
  destruct s as [|c r]; [discriminate|].
  simpl in H.
  destruct (Ascii.eqb c JSON.quotationMark).
  { injection H as _ ->. simpl. lia. }
  destruct (Ascii.eqb c JSON.reverseSolidus).
  - destruct r as [|e r1]; [discriminate|].
    destruct (Ascii.eqb e "u").
    + destruct r1 as [|h1 [|h2 [|h3 [|h4 r2]]]]; try discriminate.
      destruct (JSON.hex4 h1 h2 h3 h4) as [n|]; [|discriminate].
      destruct (n <? 256)%N; [|discriminate].
      apply bind_Normal_inv in H as ([str' rest'] & H1 & H2).
      injection H2 as _ ->. eapply IH in H1; [| |reflexivity]; simpl in *; lia.
    + destruct (JSON.simpleEscape e); [|discriminate].
      apply bind_Normal_inv in H as ([str' rest'] & H1 & H2).
      injection H2 as _ ->. eapply IH in H1; [| |reflexivity]; simpl in *; lia.
  - destruct (N_of_ascii c <? 32)%N; [discriminate|].
    apply bind_Normal_inv in H as ([str' rest'] & H1 & H2).
    injection H2 as _ ->. eapply IH in H1; [| |reflexivity]; simpl in *; lia.
Qed.

Lemma parseChars_fuel (s : string) : JSON.parseChars s <> OutOfFuel.
Proof.
  remember (String.length s) as n eqn:Hn. revert s Hn.
  induction n as [n IH] using lt_wf_ind. intros s ->.
  destruct s as [|c r]; [discriminate|].
  simpl.
  destruct (Ascii.eqb c JSON.quotationMark); [discriminate|].
  destruct (Ascii.eqb c JSON.reverseSolidus).
  - destruct r as [|e r1]; [discriminate|].
    destruct (Ascii.eqb e "u").
    + destruct r1 as [|h1 [|h2 [|h3 [|h4 r2]]]]; try discriminate.
      destruct (JSON.hex4 h1 h2 h3 h4) as [n|]; [|discriminate].
      destruct (n <? 256)%N; [|discriminate].
      intros H. apply bind_OutOfFuel_inv in H as [H | ([str' rest'] & _ & H)];
        [|discriminate]. revert H. eapply IH; [|reflexivity]. simpl. lia.
    + destruct (JSON.simpleEscape e); [|discriminate].
      intros H. apply bind_OutOfFuel_inv in H as [H | ([str' rest'] & _ & H)];
        [|discriminate]. revert H. eapply IH; [|reflexivity]. simpl. lia.
  - destruct (N_of_ascii c <? 32)%N; [discriminate|].
    intros H. apply bind_OutOfFuel_inv in H as [H | ([str' rest'] & _ & H)];
      [|discriminate]. revert H. eapply IH; [|reflexivity]. simpl. lia.
Qed.

Lemma spanDigits_length (s : string) :
  String.length s
  = (String.length (JSON.spanDigits s).1 + String.length (JSON.spanDigits s).2)%nat.
Proof.
  induction s as [|c s IH]; [done|]. simpl.
  destruct (JSON.isDigit c); [|done].
  destruct (JSON.spanDigits s) as [ds rest]. simpl in *. lia.
Qed.

Lemma digits1_length (s ds rest : string) :
  JSON.digits1 s = Normal (ds, rest) -> (String.length rest < String.length s)%nat.
Proof.
  unfold JSON.digits1. pose proof (spanDigits_length s) as H.
  destruct (JSON.spanDigits s) as [[|d ds'] rest']; [discriminate|].
  intros [= <- <-]. simpl in H. lia.
Qed.

Lemma digits1_fuel (s : string) : JSON.digits1 s <> OutOfFuel.
Proof. unfold JSON.digits1. by destruct (JSON.spanDigits s) as [[|d ds'] rest']. Qed.

Lemma parseNumber_fuel (s : string) : JSON.parseNumber s <> OutOfFuel.
Proof.
  unfold JSON.parseNumber.
  destruct (match JSON.next "-" s with Some r => ("-", r) | None => (EmptyString, s) end)
    as [minus s1].
  intros H. apply bind_OutOfFuel_inv in H as [H | ([int s2] & _ & H)].
  { unfold JSON.parseInt in H. destruct (JSON.next "0" s1); [discriminate|].
    by apply digits1_fuel in H. }
  apply bind_OutOfFuel_inv in H as [H | ([frac s3] & _ & H)].
  { unfold JSON.parseFrac in H. destruct (JSON.next "." s2); [|discriminate].
    apply bind_OutOfFuel_inv in H as [H | ([ds rest] & _ & H)]; [|discriminate].
    by apply digits1_fuel in H. }
  apply bind_OutOfFuel_inv in H as [H | ([exp s4] & _ & H)]; [|discriminate].
  unfold JSON.parseExp in H. destruct s3 as [|c r]; [discriminate|].
  destruct (_ || _); [|discriminate].
  destruct (JSON.parseSign r) as [sign r1].
  apply bind_OutOfFuel_inv in H as [H | ([ds rest] & _ & H)]; [|discriminate].
  by apply digits1_fuel in H.
Qed.

Lemma parseSign_length (s : string) :
  (String.length (JSON.parseSign s).2 <= String.length s)%nat.
Proof.
  unfold JSON.parseSign.
  destruct (JSON.next "+" s) as [r|] eqn:E1.
  { apply next_length in E1. simpl. lia. }
  destruct (JSON.next "-" s) as [r|] eqn:E2.
  { apply next_length in E2. simpl. lia. }
  simpl. lia.
Qed.

Lemma parseNumber_length (s lit rest : string) :
  JSON.parseNumber s = Normal (lit, rest) -> (String.length rest < String.length s)%nat.
Proof.
  unfold JSON.parseNumber.
  assert (H1 : (String.length
                  (match JSON.next "-" s with
                   | Some r => ("-", r) | None => (EmptyString, s) end).2
                <= String.length s)%nat).
  { destruct (JSON.next "-" s) as [r|] eqn:E; simpl; [|lia].
    apply next_length in E. lia. }
  destruct (match JSON.next "-" s with Some r => ("-", r) | None => (EmptyString, s) end)
    as [minus s1]. simpl in H1.
  intros H. apply bind_Normal_inv in H as ([int s2] & Hint & H).
  apply bind_Normal_inv in H as ([frac s3] & Hfrac & H).
  apply bind_Normal_inv in H as ([exp s4] & Hexp & H).
  injection H as _ <-.
  assert (H2 : (String.length s2 < String.length s1)%nat).
  { unfold JSON.parseInt in Hint. destruct (JSON.next "0" s1) as [r|] eqn:E.
    - injection Hint as _ <-. apply next_length in E. lia.
    - by apply digits1_length in Hint. }
  assert (H3 : (String.length s3 <= String.length s2)%nat).
  { unfold JSON.parseFrac in Hfrac. destruct (JSON.next "." s2) as [r|] eqn:E.
    - apply bind_Normal_inv in Hfrac as ([ds rest'] & Hd & Hfrac).
      injection Hfrac as _ <-. apply digits1_length in Hd. apply next_length in E. lia.
    - injection Hfrac as _ <-. lia. }
  assert (H4 : (String.length s4 <= String.length s3)%nat).
  { unfold JSON.parseExp in Hexp. destruct s3 as [|c r]; [injection Hexp as _ <-; lia|].
    destruct (_ || _); [|injection Hexp as _ <-; lia].
    pose proof (parseSign_length r) as Hs.
    destruct (JSON.parseSign r) as [sign r1]. simpl in Hs.
    apply bind_Normal_inv in Hexp as ([ds rest'] & Hd & Hexp).
    injection Hexp as _ <-. apply digits1_length in Hd. simpl. lia. }
  lia.
Qed.

Lemma dropPrefix_length (word s rest : string) :
  JSON.dropPrefix word s = Some rest ->
  String.length s = (String.length word + String.length rest)%nat.
Proof.
  revert s. induction word as [|c w IH]; intros s; simpl.
  - by intros [= ->].
  - destruct s as [|d r]; [discriminate|].
    destruct (Ascii.eqb c d); [|discriminate].
    intros H. apply IH in H. simpl. lia.
Qed.

Lemma parseWord_length (word : string) (v v' : JSON.value) (s rest : string) :
  word <> EmptyString ->
  JSON.parseWord word v s = Normal (v', rest) -> (String.length rest < String.length s)%nat.
Proof.
  intros Hw. unfold JSON.parseWord.
  destruct (JSON.dropPrefix word s) as [r|] eqn:E; [|discriminate].
  intros [= _ <-]. apply dropPrefix_length in E. destruct word; [done|]. simpl in E. lia.
Qed.

Lemma parseWord_fuel (word : string) (v : JSON.value) (s : string) :
  JSON.parseWord word v s <> OutOfFuel.
Proof. unfold JSON.parseWord. by destruct (JSON.dropPrefix word s). Qed.

(** A parsed value, list of elements or list of members leaves less
    text than it was given. *)
Lemma parse_length (fuel : nat) :
  (forall s v rest, JSON.parseValue fuel s = Normal (v, rest) ->
                    (String.length rest < String.length s)%nat)
  /\ (forall s vs rest, JSON.parseElements fuel s = Normal (vs, rest) ->
                        (String.length rest < String.length s)%nat)
  /\ (forall s ms rest, JSON.parseMembers fuel s = Normal (ms, rest) ->
                        (String.length rest < String.length s)%nat).
Proof.
  induction fuel as [|fuel (IHv & IHe & IHm)]; [by repeat split|].
  split; [|split].
  - intros s v rest H. destruct s as [|c r]; [discriminate|].
    simpl in H.
    destruct (Ascii.eqb c "{").
    { pose proof (skipWhitespace_length r) as Hs.
      destruct (JSON.next "}" (JSON.skipWhitespace r)) as [r'|] eqn:E.
      - injection H as _ <-. apply next_length in E. simpl. lia.
      - apply bind_Normal_inv in H as ([ms r'] & Hm & H). injection H as _ <-.
        apply IHm in Hm. simpl. lia. }
    destruct (Ascii.eqb c "[").
    { pose proof (skipWhitespace_length r) as Hs.
      destruct (JSON.next "]" (JSON.skipWhitespace r)) as [r'|] eqn:E.
      - injection H as _ <-. apply next_length in E. simpl. lia.
      - apply bind_Normal_inv in H as ([vs r'] & He & H). injection H as _ <-.
        apply IHe in He. simpl. lia. }
    destruct (Ascii.eqb c JSON.quotationMark).
    { apply bind_Normal_inv in H as ([str r'] & Hc & H). injection H as _ <-.
      apply parseChars_length in Hc. simpl. lia. }
    destruct (Ascii.eqb c "t"); [by apply parseWord_length in H|].
    destruct (Ascii.eqb c "f"); [by apply parseWord_length in H|].
    destruct (Ascii.eqb c "n"); [by apply parseWord_length in H|].
    apply bind_Normal_inv in H as ([lit r'] & Hn & H). injection H as _ <-.
    by apply parseNumber_length in Hn.
  - intros s vs rest H. simpl in H.
    pose proof (skipWhitespace_length s) as Hs.
    apply bind_Normal_inv in H as ([v r] & Hv & H).
    apply IHv in Hv. pose proof (skipWhitespace_length r) as Hr.
    destruct (JSON.next "," (JSON.skipWhitespace r)) as [r1|] eqn:E1.
    { apply bind_Normal_inv in H as ([vs' r'] & He & H). injection H as _ <-.
      apply IHe in He. apply next_length in E1. lia. }
    destruct (JSON.next "]" (JSON.skipWhitespace r)) as [r1|] eqn:E2; [|discriminate].
    injection H as _ <-. apply next_length in E2. lia.
  - intros s ms rest H. simpl in H.
    pose proof (skipWhitespace_length s) as Hs.
    destruct (JSON.next JSON.quotationMark (JSON.skipWhitespace s)) as [r|] eqn:E0;
      [|discriminate].
    apply next_length in E0.
    apply bind_Normal_inv in H as ([key r1] & Hc & H).
    apply parseChars_length in Hc. pose proof (skipWhitespace_length r1) as Hr1.
    destruct (JSON.next ":" (JSON.skipWhitespace r1)) as [r2|] eqn:E1; [|discriminate].
    apply next_length in E1. pose proof (skipWhitespace_length r2) as Hr2.
    apply bind_Normal_inv in H as ([v r3] & Hv & H).
    apply IHv in Hv. pose proof (skipWhitespace_length r3) as Hr3.
    destruct (JSON.next "," (JSON.skipWhitespace r3)) as [r4|] eqn:E2.
    { apply bind_Normal_inv in H as ([ms' r'] & Hm & H). injection H as _ <-.
      apply IHm in Hm. apply next_length in E2. lia. }
    destruct (JSON.next "}" (JSON.skipWhitespace r3)) as [r4|] eqn:E3; [|discriminate].
    injection H as _ <-. apply next_length in E3. lia.
Qed.

(** With fuel above twice the length of the text the descent does not
    run out of it. *)
Lemma parse_fuel (fuel : nat) :
  (forall s, (2 * String.length s < fuel)%nat -> JSON.parseValue fuel s <> OutOfFuel)
  /\ (forall s, (2 * String.length s + 2 <= fuel)%nat ->
                JSON.parseElements fuel s <> OutOfFuel)
  /\ (forall s, (2 * String.length s + 2 <= fuel)%nat ->
                JSON.parseMembers fuel s <> OutOfFuel).
Proof.
  induction fuel as [|fuel (IHv & IHe & IHm)].
  { split; [|split]; intros s H; lia. }
  destruct (parse_length fuel) as (Lv & Le & Lm).
  split; [|split].
  - intros s Hs H. destruct s as [|c r]; [discriminate|].
    simpl in H, Hs.
    destruct (Ascii.eqb c "{").
    { destruct (JSON.next "}" (JSON.skipWhitespace r)); [discriminate|].
      apply bind_OutOfFuel_inv in H as [H | ([ms r'] & _ & H)]; [|discriminate].
      revert H. apply IHm. lia. }
    destruct (Ascii.eqb c "[").
    { destruct (JSON.next "]" (JSON.skipWhitespace r)); [discriminate|].
      apply bind_OutOfFuel_inv in H as [H | ([vs r'] & _ & H)]; [|discriminate].
      revert H. apply IHe. lia. }
    destruct (Ascii.eqb c JSON.quotationMark).
    { apply bind_OutOfFuel_inv in H as [H | ([str r'] & _ & H)]; [|discriminate].
      by apply parseChars_fuel in H. }
    destruct (Ascii.eqb c "t"); [by apply parseWord_fuel in H|].
    destruct (Ascii.eqb c "f"); [by apply parseWord_fuel in H|].
    destruct (Ascii.eqb c "n"); [by apply parseWord_fuel in H|].
    apply bind_OutOfFuel_inv in H as [H | ([lit r'] & _ & H)]; [|discriminate].
    by apply parseNumber_fuel in H.
  - intros s Hs H. simpl in H.
    pose proof (skipWhitespace_length s) as Hw.
    apply bind_OutOfFuel_inv in H as [H | ([v r] & Hv & H)].
    { revert H. apply IHv. lia. }
    apply Lv in Hv. pose proof (skipWhitespace_length r) as Hr.
    destruct (JSON.next "," (JSON.skipWhitespace r)) as [r1|] eqn:E1.
    { apply next_length in E1.
      apply bind_OutOfFuel_inv in H as [H | ([vs' r'] & _ & H)]; [|discriminate].
      revert H. apply IHe. lia. }
    by destruct (JSON.next "]" (JSON.skipWhitespace r)).
  - intros s Hs H. simpl in H.
    pose proof (skipWhitespace_length s) as Hw.
    destruct (JSON.next JSON.quotationMark (JSON.skipWhitespace s)) as [r|] eqn:E0;
      [|discriminate].
    apply next_length in E0.
    apply bind_OutOfFuel_inv in H as [H | ([key r1] & Hc & H)].
    { by apply parseChars_fuel in H. }
    apply parseChars_length in Hc. pose proof (skipWhitespace_length r1) as Hr1.
    destruct (JSON.next ":" (JSON.skipWhitespace r1)) as [r2|] eqn:E1; [|discriminate].
    apply next_length in E1. pose proof (skipWhitespace_length r2) as Hr2.
    apply bind_OutOfFuel_inv in H as [H | ([v r3] & Hv & H)].
    { revert H. apply IHv. lia. }
    apply Lv in Hv. pose proof (skipWhitespace_length r3) as Hr3.
    destruct (JSON.next "," (JSON.skipWhitespace r3)) as [r4|] eqn:E2.
    { apply next_length in E2.
      apply bind_OutOfFuel_inv in H as [H | ([ms' r'] & _ & H)]; [|discriminate].
      revert H. apply IHm. lia. }
    by destruct (JSON.next "}" (JSON.skipWhitespace r3)).
Qed.

(** [JSON.parse] gives its descent enough fuel. *)
Lemma JSON_parse_fuel (text : string) : JSON.parse text <> OutOfFuel.
Proof.
  unfold JSON.parse. intros H.
  apply bind_OutOfFuel_inv in H as [H | ([v rest] & _ & H)].
  - revert H. apply (parse_fuel (S (2 * String.length text))).
    pose proof (skipWhitespace_length text). lia.
  - by destruct (JSON.skipWhitespace rest).
Qed.

(** ** Saving and loading *)

Lemma toJSONValue_numberFree (l : list BlogPost.t) :
  numberFree (JSON.Array (List.map toJSONValue l)) = true.
Proof.
  simpl. induction l as [|p l IH]; [done|].
  simpl. rewrite IH. by destruct (JSDate.toJSON _).
Qed.

Lemma JSON_parse_serialize (l : list BlogPost.t) :
  JSON.parse (serialize l) = Normal (JSON.Array (List.map toJSONValue l)).
Proof. apply JSON_parse_stringify, toJSONValue_numberFree. Qed.

Lemma serialize_truthy (l : list BlogPost.t) : JSString.truthy (serialize l) = true.
Proof. reflexivity. Qed.

Lemma revive_toJSONValue hostDateParse (p : BlogPost.t) :
  dated p -> revive hostDateParse (toJSONValue p) = Normal (revivedPost p).
Proof.
  destruct p as [i t a b ts]. unfold dated, validDate. simpl.
  destruct ts as [tv|]; [|done]. intros Hr.
  unfold revive, revivedPost, toJSONValue. simpl.
  rewrite parse_toISOString by done. reflexivity.
Qed.

Lemma blogPost_revivedPost (p : BlogPost.t) : blogPost (revivedPost p) = Normal p.
Proof.
  destruct p as [i t a b ts]. unfold blogPost, asBlogPost, revivedPost, toJSONValue. simpl.
  by destruct (JSDate.toJSON ts).
Qed.

Lemma mapC_revive hostDateParse (l : list BlogPost.t) :
  Forall dated l ->
  mapC (revive hostDateParse) (List.map toJSONValue l) = Normal (List.map revivedPost l).
Proof.
  induction 1 as [|p l Hp Hl IH]; [reflexivity|].
  change (mapC (revive hostDateParse) (List.map toJSONValue (p :: l)))
    with (y ← revive hostDateParse (toJSONValue p);
          ys ← mapC (revive hostDateParse) (List.map toJSONValue l);
          Normal (y :: ys)).
  rewrite revive_toJSONValue by done. rewrite IH. reflexivity.
Qed.

Lemma mapC_blogPost (l : list BlogPost.t) :
  mapC blogPost (List.map revivedPost l) = Normal l.
Proof.
  induction l as [|p l IH]; [reflexivity|].
  change (mapC blogPost (List.map revivedPost (p :: l)))
    with (y ← blogPost (revivedPost p);
          ys ← mapC blogPost (List.map revivedPost l);
          Normal (y :: ys)).
  rewrite blogPost_revivedPost, IH. reflexivity.
Qed.

Lemma bind_Normal {A B : Type} (f : A -> Completion B) (x : A) : (Normal x ≫= f) = f x.
Proof. reflexivity. Qed.

Lemma load_serialized hostDateParse (l : list BlogPost.t) :
  Forall dated l ->
  load hostDateParse (Some (serialize l)) = Normal (Assigned (List.map revivedPost l)).
Proof.
  intros Hd. unfold load. rewrite serialize_truthy.
  rewrite JSON_parse_serialize, bind_Normal. unfold mapParsed.
  by rewrite mapC_revive.
Qed.

Lemma loadFromStorage_serialized hostDateParse (st : State) (l : list BlogPost.t) :
  storage st = Some (serialize l) -> Forall dated l ->
  exists st',
    loadFromStorage hostDateParse st = Normal st'
    /\ postList st' = l
    /\ console st' = console st
    /\ storage st' = storage st.
Proof.
  intros Hs Hd. unfold loadFromStorage. rewrite Hs, load_serialized by done.
  rewrite bind_Normal, mapC_blogPost, bind_Normal.
  pose proof (alloc_deref l (heap st)) as Ha.
  destruct (JSArray.alloc l (heap st)) as [r h]. simpl in Ha.
  eexists. split; [reflexivity|]. split; [exact Ha|]. split; [reflexivity | exact Hs].
Qed.

Lemma mapC_fuel {A B : Type} (f : A -> Completion B) (l : list A) :
  (forall x, f x <> OutOfFuel) -> mapC f l <> OutOfFuel.
Proof.
  intros Hf. induction l as [|x l IH]; [discriminate|].
  simpl. intros H.
  apply bind_OutOfFuel_inv in H as [H | (y & _ & H)]; [by apply Hf in H|].
  apply bind_OutOfFuel_inv in H as [H | (ys & _ & H)]; [done | discriminate].
Qed.

Lemma revive_fuel hostDateParse (v : JSON.value) : revive hostDateParse v <> OutOfFuel.
Proof.
  assert (Hd : forall o, newDate hostDateParse o <> OutOfFuel).
  { intros [[|[]|?|?|?|?]|]; discriminate. }
  assert (Hb : forall ps : list (string * JSON.value),
            (ts ← newDate hostDateParse (property "timestamp" ps);
             Normal {| copied := ps; date := ts |}) <> OutOfFuel).
  { intros ps H. apply bind_OutOfFuel_inv in H as [H | (ts & _ & H)];
      [by apply Hd in H | discriminate]. }
  destruct v as [|b|lit|[|c s]|[|e es]|ms]; try discriminate; try apply Hb.
  unfold revive, ownProperties. destruct (_ && _); [apply Hb | discriminate].
Qed.

Lemma load_fuel hostDateParse (stored : option string) :
  load hostDateParse stored <> OutOfFuel.
Proof.
  unfold load. destruct stored as [stored|]; [|discriminate].
  destruct (JSString.truthy stored); [|discriminate].
  unfold tryCatch.
  destruct (_ ≫= _) as [l|e| |] eqn:E; try discriminate.
  exfalso.
  apply bind_OutOfFuel_inv in E as [E | (parsed & _ & E)].
  { by apply JSON_parse_fuel in E. }
  apply bind_OutOfFuel_inv in E as [E | (revived & _ & E)]; [|discriminate].
  destruct parsed; try discriminate.
  revert E. apply mapC_fuel, revive_fuel.
Qed.

(** [loadFromStorage] does not stop for lack of fuel. *)
Lemma loadFromStorage_fuel hostDateParse (st : State) :
  loadFromStorage hostDateParse st <> OutOfFuel.
Proof.
  unfold loadFromStorage. intros H.
  apply bind_OutOfFuel_inv in H as [H | (loaded & _ & H)]; [by apply load_fuel in H|].
  destruct loaded as [|revived|error]; [discriminate| |].
  - apply bind_OutOfFuel_inv in H as [H | (ps & _ & H)].
    + revert H. apply mapC_fuel. intros r. unfold blogPost. by destruct (asBlogPost r).
    + by destruct (JSArray.alloc ps (heap st)).
  - by destruct (JSArray.alloc [] (heap (consoleError error st))).
Qed.

(** C8, for lists of valid dates.  When every post of the list has a
    valid date, what [saveToStorage] writes makes [loadFromStorage],
    in this or in a later session, produce the same list: the same
    posts in the same order, each with its id, title, author, body and
    timestamp. *)
Theorem save_then_load (hostDateParse : string -> JSDate.Date) (st st0 : State) :
  Forall dated (postList st) ->
  storage st0 = storage (saveToStorage st) ->
  exists st',
    loadFromStorage hostDateParse st0 = Normal st'
    /\ postList st' = postList st
    /\ length (postList st') = length (postList st)
    /\ console st' = console st0.
Proof.
  intros Hd Hs.
  destruct (loadFromStorage_serialized hostDateParse st0 (postList st) Hs Hd)
    as (st' & Hload & Hp & Hc & _).
  exists st'. split; [done|]. split; [done|]. split; [by rewrite Hp | done].
Qed.






(** C8 does not extend to a post with an Invalid Date: it is written as
    [null], and [new Date(null)] is the epoch. *)
Lemma save_then_load_counterexample :
  exists st',
    loadFromStorage isoOnly
      (saveToStorage (stateWith [postX] "date" "")) = Normal st'
    /\ postList st' = [BlogPost.make "x" "Undated" "Eve" "..." (JSDate.TimeValue 0)]
    /\ postList st' <> postList (stateWith [postX] "date" "").
Proof.
  eexists. split; [vm_compute; reflexivity|].
  split; [vm_compute; reflexivity|]. vm_compute. discriminate.
Qed.

(** ** A session *)

(** Two posts are created, the first is edited, the second deleted, and
    the page is loaded again. *)
Example session :
  let lc := codeUnitCompare in
  let st0 := initialState None (page "date" "") in
  let st1 := handleSubmit lc "a" 1 (typed "First" "Bob" "..." st0) in
  let st2 := handleSubmit lc "b" 2 (typed "Second" "Ann" "..." st1) in
  let st3 := editPost "a" st2 in
  let st4 := handleSubmit lc "c" 3 (typed "First!" "Bob" "..." st3) in
  let st5 := deletePost lc true "b" st4 in
  postList st2 = [postB; postA]
  /\ postsContainer (document st2) = [postB; postA]
  /\ formState st3 = Editing "a"
  /\ value (titleInput (document st3)) = "First"
  /\ postList st4 = [postB; BlogPost.make "a" "First!" "Bob" "..." (JSDate.TimeValue 1)]
  /\ formState st4 = Idle
  /\ postList st5 = [BlogPost.make "a" "First!" "Bob" "..." (JSDate.TimeValue 1)]
  /\ exists st6,
       init lc isoOnly (initialState (storage st5) (page "date" "")) = Normal st6
       /\ postList st6 = postList st5
       /\ postsContainer (document st6) = postList st5
       /\ noPosts (document st6) = "none".
Proof.
  vm_compute. repeat split.
  eexists. repeat split.
Qed.

(** Had the code sorted [posts] itself, the list would be reordered. *)
Example sort_in_place_reorders :
  let st := stateWith [postA; postB] "date" "" in
  postList
    (setHeap (JSArray.sortInPlace (compareFn codeUnitCompare "date") (posts st) (heap st)) st)
  = [postB; postA].
Proof. vm_compute. reflexivity. Qed.

(** ** The statements at sample data *)

Lemma createPost_front_witness :
  live (stateWith [postA] "date" "")
  /\ postList (createPost "b" 2 "Second" "Ann" "..." (stateWith [postA] "date" ""))
     = [postB; postA]
  /\ postList (createPosts [("a", 1, ("First", "Bob", "...")); ("b", 2, ("Second", "Ann", "..."))]
                 (stateWith [] "date" ""))
     = [postB; postA].
Proof.
  assert (H1 : live (stateWith [postA] "date" "")) by (vm_compute; eauto).
  assert (H0 : live (stateWith [] "date" "")) by (vm_compute; eauto).
  split; [exact H1|]. split.
  - exact (proj1 (proj1 (createPost_front (stateWith [postA] "date" "") H1)
                    "b" 2 "Second" "Ann" "...")).
  - exact (proj1 (proj2 (createPost_front (stateWith [] "date" "") H0)
                    [("a", 1, ("First", "Bob", "...")); ("b", 2, ("Second", "Ann", "..."))]
                    eq_refl)).
Defined.

Lemma updatePost_overwrites_witness :
  live (stateWith [postB; postA] "date" "")
  /\ "a" ∈ ids (postList (stateWith [postB; postA] "date" ""))
  /\ exists i post,
       postList (stateWith [postB; postA] "date" "") !! i = Some post
       /\ postList (updatePost "a" "T" "U" "V" (stateWith [postB; postA] "date" "")) !! i
          = Some (BlogPost.make "a" "T" "U" "V" (BlogPost.timestamp post)).
Proof.
  assert (Hl : live (stateWith [postB; postA] "date" "")) by (vm_compute; eauto).
  assert (Hin : "a" ∈ ids (postList (stateWith [postB; postA] "date" "")))
    by (vm_compute; right; left).
  split; [exact Hl|]. split; [exact Hin|].
  destruct (updatePost_overwrites "a" "T" "U" "V" (stateWith [postB; postA] "date" "")
              Hl Hin) as (i & post & H1 & _ & _ & H2 & _).
  exists i, post. split; [exact H1 | exact H2].
Defined.

Lemma unknown_id_noop_witness :
  ("z" ∉ ids (postList (stateWith [postB; postA] "date" "")))
  /\ updatePost "z" "T" "U" "V" (stateWith [postB; postA] "date" "")
     = stateWith [postB; postA] "date" ""
  /\ postList (deletePost codeUnitCompare true "z" (stateWith [postB; postA] "date" ""))
     = [postB; postA].
Proof.
  assert (Hn : "z" ∉ ids (postList (stateWith [postB; postA] "date" "")))
    by (vm_compute; intros H; repeat (inversion_clear H as [|? ? ? H']; rename H' into H)).
  split; [exact Hn|].
  destruct (unknown_id_noop codeUnitCompare "z" (stateWith [postB; postA] "date" "") Hn)
    as (H1 & H2 & _).
  split; [apply H1 | exact H2].
Defined.

Lemma deletePost_removes_one_witness :
  NoDup (ids (postList (stateWith [postB; postA] "date" "")))
  /\ "b" ∈ ids (postList (stateWith [postB; postA] "date" ""))
  /\ exists before post after,
       postList (stateWith [postB; postA] "date" "") = (before ++ post :: after)%list
       /\ BlogPost.id post = "b"
       /\ postList (deletePost codeUnitCompare true "b" (stateWith [postB; postA] "date" ""))
          = (before ++ after)%list.
Proof.
  assert (Hnd : NoDup (ids (postList (stateWith [postB; postA] "date" ""))))
    by (vm_compute; repeat constructor;
        intros H; repeat (inversion_clear H as [|? ? ? H']; rename H' into H)).
  assert (Hin : "b" ∈ ids (postList (stateWith [postB; postA] "date" "")))
    by (vm_compute; left).
  split; [exact Hnd|]. split; [exact Hin|].
  destruct (deletePost_removes_one codeUnitCompare "b" (stateWith [postB; postA] "date" "")
              Hnd Hin) as (before & post & after & H1 & H2 & H3 & _).
  exists before, post, after. split; [exact H1|]. split; [exact H2 | exact H3].
Defined.

Lemma view_leaves_posts_witness :
  live (stateWith [postA; postB] "author" "n")
  /\ postList (getFilteredAndSortedPosts codeUnitCompare
                 (stateWith [postA; postB] "author" "n")).2
     = [postA; postB].
Proof.
  assert (Hl : live (stateWith [postA; postB] "author" "n")) by (vm_compute; eauto).
  split; [exact Hl|].
  exact (proj1 (proj2 (proj2 (view_leaves_posts codeUnitCompare
                                (stateWith [postA; postB] "author" "n") Hl)))).
Defined.

Lemma save_then_load_witness :
  Forall dated (postList (stateWith [postB; postA] "date" ""))
  /\ storage (initialState (Some (serialize [postB; postA])) (page "date" ""))
     = storage (saveToStorage (stateWith [postB; postA] "date" ""))
  /\ exists st',
       loadFromStorage isoOnly
         (initialState (Some (serialize [postB; postA])) (page "date" "")) = Normal st'
       /\ postList st' = [postB; postA].
Proof.
  assert (Hd : Forall dated (postList (stateWith [postB; postA] "date" "")))
    by (change (Forall dated [postB; postA]); repeat constructor).
  assert (Hs : storage (initialState (Some (serialize [postB; postA])) (page "date" ""))
               = storage (saveToStorage (stateWith [postB; postA] "date" "")))
    by (vm_compute; reflexivity).
  split; [exact Hd|]. split; [exact Hs|].
  destruct (save_then_load isoOnly
              (stateWith [postB; postA] "date" "")
              (initialState (Some (serialize [postB; postA])) (page "date" ""))
              Hd Hs) as (st' & H1 & H2 & _).
  exists st'. split; [exact H1 | exact H2].
Defined.


Lemma submit_edit_of_missing_post_witness :
  live (editingState "gone" [postA])
  /\ formState (editingState "gone" [postA]) = Editing "gone"
  /\ ("gone" ∉ ids (postList (editingState "gone" [postA])))
  /\ postList (handleSubmit codeUnitCompare "u" 3 (editingState "gone" [postA])) = [postA]
  /\ formState (handleSubmit codeUnitCompare "u" 3 (editingState "gone" [postA])) = Idle.
Proof.
  assert (Hl : live (editingState "gone" [postA])) by (vm_compute; eauto).
  assert (Hf : formState (editingState "gone" [postA]) = Editing "gone") by reflexivity.
  assert (Hn : "gone" ∉ ids (postList (editingState "gone" [postA])))
    by (vm_compute; intros H; repeat (inversion_clear H as [|? ? ? H']; rename H' into H)).
  split; [exact Hl|]. split; [exact Hf|]. split; [exact Hn|].
  destruct (submit_edit_of_missing_post codeUnitCompare "u" 3 "gone"
              (editingState "gone" [postA]) Hl Hf Hn) as (H1 & _ & H2 & _).
  split; [exact H1 | exact H2].
Defined.


(** * The page in use *)

(** ** Rendering *)

Lemma fresh_ne_posts (st : State) : live st -> fresh (dom (heap st)) <> posts st.
Proof.
  intros [a Ha] E. pose proof (is_fresh (dom (heap st))) as Hf.
  rewrite E in Hf. apply Hf, elem_of_dom. eauto.
Qed.

Lemma renderPosts_live localeCompare st : live st -> live (renderPosts localeCompare st).
Proof.
  intros Hl. pose proof (fresh_ne_posts st Hl) as Hne. destruct Hl as [a Ha].
  unfold renderPosts, live. rewrite getFilteredAndSortedPosts_eq.
  destruct (_ =? _)%nat; simpl; rewrite lookup_insert_ne by done; eauto.
Qed.

Lemma renderPosts_controls localeCompare st :
  sortSelect (document (renderPosts localeCompare st)) = sortSelect (document st)
  /\ authorFilter (document (renderPosts localeCompare st)) = authorFilter (document st).
Proof.
  unfold renderPosts. rewrite getFilteredAndSortedPosts_eq.
  by destruct (_ =? _)%nat.
Qed.

Lemma renderPosts_container localeCompare st :
  postsContainer (document (renderPosts localeCompare st)) = view localeCompare st
  /\ noPosts (document (renderPosts localeCompare st))
     = (if (length (view localeCompare st) =? 0)%nat then "block" else "none").
Proof.
  unfold renderPosts, view.
  destruct (getFilteredAndSortedPosts localeCompare st) as [l st1]. simpl.
  destruct (length _ =? 0)%nat eqn:E; simpl; [|done].
  apply Nat.eqb_eq, length_zero_iff_nil in E. by rewrite E.
Qed.

Lemma view_ext localeCompare st st' :
  postList st' = postList st ->
  sortSelect (document st') = sortSelect (document st) ->
  authorFilter (document st') = authorFilter (document st) ->
  view localeCompare st' = view localeCompare st.
Proof. intros H1 H2 H3. rewrite !view_eq. unfold kept. by rewrite H1, H2, H3. Qed.


Lemma renderPosts_rendered localeCompare st :
  live st -> rendered localeCompare (renderPosts localeCompare st).
Proof.
  intros Hl.
  destruct (renderPosts_frame localeCompare st Hl) as (_ & Hp & _).
  destruct (renderPosts_controls localeCompare st) as [Hs Hf].
  destruct (renderPosts_container localeCompare st) as [Hc Hn].
  unfold rendered. rewrite (view_ext _ _ _ Hp Hs Hf). by rewrite Hc, Hn.
Qed.

Lemma filter_nil_iff {A : Type} (f : A -> bool) (l : list A) :
  List.filter f l = [] <-> Forall (fun x => f x = false) l.
Proof.
  induction l as [|x l IH]; simpl.
  - split; [constructor | done].
  - destruct (f x) eqn:E.
    + split; [done|]. intros H. apply Forall_cons in H as [H _]. congruence.
    + rewrite IH. split; [by constructor | intros H; by apply Forall_cons in H as [_ H]].
Qed.

(** X1. [renderPosts] puts on the page, in some order, exactly the
    posts that pass the test of the list operation (the lower-cased
    author includes the lower-cased filter text), each as often as
    the list has it, and shows the indicator of [#no-posts] exactly
    when no post of the list passes; the indicator is either shown or
    hidden. *)
Theorem renderPosts_shows_matching (localeCompare : string -> string -> Z) (st : State) :
  let st' := renderPosts localeCompare st in
  let matching := List.filter (authorMatches (authorFilter (document st))) (postList st) in
  Permutation (postsContainer (document st')) matching
  /\ (noPosts (document st') = "block" <-> matching = [])
  /\ (noPosts (document st') = "none" <-> matching <> [])
  /\ (noPosts (document st') = "block" <->
      Forall (fun p => authorMatches (authorFilter (document st)) p = false) (postList st)).
Proof.
  simpl. destruct (renderPosts_container localeCompare st) as [Hc Hn].
  rewrite Hc, Hn, view_eq, <- kept_filter.
  set (cmp := compareFn _ _).
  pose proof (sort_Permutation cmp (kept st)) as Hperm.
  split; [exact Hperm|].
  assert (Hlen : length (JSArray.sort cmp (kept st)) = length (kept st))
    by (by apply Permutation_length).
  rewrite Hlen.
  split; [|split].
  - destruct (kept st); simpl; split; done.
  - destruct (kept st); simpl; split; done.
  - rewrite <- (filter_nil_iff _ (postList st)), <- kept_filter.
    destruct (kept st); simpl; split; done.
Qed.

(** ** The form *)

Lemma formState_Idle (st : State) : formState st = Idle <-> editingId st = None.
Proof. unfold formState. destruct (editingId st); split; done. Qed.

Lemma formState_Editing (st : State) (id : string) :
  formState st = Editing id <-> editingId st = Some id.
Proof. unfold formState. destruct (editingId st); split; congruence. Qed.

Lemma list_find_id (id : string) (l : list BlogPost.t) :
  id ∈ ids l ->
  exists i post, list_find (fun p => BlogPost.id p = id) l = Some (i, post).
Proof.
  intros Hin. apply list_elem_of_In, in_map_iff in Hin as (p & Hp & Hin).
  apply list_elem_of_In in Hin.
  destruct (list_find_elem_of (fun p => BlogPost.id p = id) l p Hin Hp) as [[i post] H].
  by exists i, post.
Qed.

Lemma list_find_first (id : string) (l : list BlogPost.t) (i : nat) (post : BlogPost.t) :
  list_find (fun p => BlogPost.id p = id) l = Some (i, post) ->
  l !! i = Some post /\ BlogPost.id post = id
  /\ forall j q, l !! j = Some q -> BlogPost.id q = id -> (i <= j)%nat.
Proof.
  intros H. apply list_find_Some in H as (H1 & H2 & H3).
  split; [done|]. split; [done|].
  intros j q Hj Hq. destruct (decide (i <= j)%nat) as [|Hn]; [done|].
  exfalso. apply (H3 j q Hj); [lia | done].
Qed.

Lemma updatePost_live id title author body st :
  live st -> live (updatePost id title author body st).
Proof.
  intros Hl. unfold updatePost. destruct (list_find _ _) as [[i post]|]; [|done].
  unfold live, saveToStorage, JSArray.store. simpl. by apply lookup_alter_is_Some.
Qed.

Lemma updatePost_storage id title author body st i post :
  list_find (fun p => BlogPost.id p = id) (postList st) = Some (i, post) ->
  storage (updatePost id title author body st)
  = Some (serialize (postList (updatePost id title author body st))).
Proof. intros Hf. unfold updatePost. by rewrite Hf. Qed.

(** What [handleSubmit] leaves behind, whatever the store did. *)
Lemma handleSubmit_after localeCompare st1 :
  live st1 ->
  let st' := renderPosts localeCompare (resetForm st1) in
  live st'
  /\ postList st' = postList st1
  /\ storage st' = storage st1
  /\ console st' = console st1
  /\ currentEditingId st' = None
  /\ submitBtn (document st') = CreatePostLabel
  /\ cancelEdit (document st') = false
  /\ value (titleInput (document st')) = defaultValue (titleInput (document st1))
  /\ value (authorInput (document st')) = defaultValue (authorInput (document st1))
  /\ value (bodyInput (document st')) = defaultValue (bodyInput (document st1))
  /\ rendered localeCompare st'.
Proof.
  intros Hl. simpl.
  assert (Hl' : live (resetForm st1)) by exact Hl.
  destruct (renderPosts_frame localeCompare (resetForm st1) Hl')
    as (_ & Hp & Hs & He & Hc & Ht & Ha & Hb & Hsb & Hce).
  split; [by apply renderPosts_live|].
  rewrite Hp, Hs, He, Hc, Ht, Ha, Hb, Hsb, Hce.
  repeat (split; [reflexivity|]). by apply renderPosts_rendered.
Qed.

(** X2. Submitting the form while no post is being edited creates a
    post from the values of the three controls, with the generated id
    and the current time, in front of the list; the list is stored,
    the form is back at its default values with the label "Create
    Post" and without a cancel button, and the page shows the list. *)
Theorem handleSubmit_creates (localeCompare : string -> string -> Z)
    (uuid : string) (now : Z) (st : State) :
  live st -> formState st = Idle ->
  let st' := handleSubmit localeCompare uuid now st in
  postList st'
  = BlogPost.make uuid (value (titleInput (document st)))
      (value (authorInput (document st))) (value (bodyInput (document st)))
      (JSDate.TimeValue now) :: postList st
  /\ storage st' = Some (serialize (postList st'))
  /\ formState st' = Idle
  /\ submitBtn (document st') = CreatePostLabel
  /\ cancelEdit (document st') = false
  /\ value (titleInput (document st')) = defaultValue (titleInput (document st))
  /\ value (authorInput (document st')) = defaultValue (authorInput (document st))
  /\ value (bodyInput (document st')) = defaultValue (bodyInput (document st))
  /\ rendered localeCompare st'.
Proof.
  intros Hl Hidle. apply formState_Idle in Hidle. simpl.
  unfold handleSubmit. rewrite Hidle.
  set (st1 := createPost _ _ _ _ _ st).
  assert (Hl1 : live st1) by (by apply createPost_live).
  destruct (handleSubmit_after localeCompare st1 Hl1)
    as (_ & Hp & Hs & _ & He & Hsb & Hce & Ht & Ha & Hb & Hr).
  rewrite Hp, Hs. split; [by apply createPost_postList|].
  split; [reflexivity|].
  split; [apply formState_Idle; unfold editingId; by rewrite He|].
  repeat (split; [assumption|]). exact Hr.
Qed.

(** X3. Submitting the form while the post [id] is being edited and the
    list holds such a post writes the values of the three controls
    into the first post with this id, keeps its id and timestamp and
    every other post, stores the list, and leaves the form idle with
    the page showing the list; no post is created. *)
Theorem handleSubmit_updates (localeCompare : string -> string -> Z)
    (uuid : string) (now : Z) (id : string) (st : State) :
  live st -> formState st = Editing id -> id ∈ ids (postList st) ->
  let st' := handleSubmit localeCompare uuid now st in
  exists i post,
    postList st !! i = Some post
    /\ BlogPost.id post = id
    /\ (forall j q, postList st !! j = Some q -> BlogPost.id q = id -> (i <= j)%nat)
    /\ postList st'
       = <[i := BlogPost.make id (value (titleInput (document st)))
                 (value (authorInput (document st))) (value (bodyInput (document st)))
                 (BlogPost.timestamp post)]> (postList st)
    /\ length (postList st') = length (postList st)
    /\ storage st' = Some (serialize (postList st'))
    /\ formState st' = Idle
    /\ rendered localeCompare st'.
Proof.
  intros Hl Hed Hin. apply formState_Editing in Hed. simpl.
  destruct (list_find_id id (postList st) Hin) as (i & post & Hf).
  destruct (list_find_first id _ i post Hf) as (Hi & Hid & Hfirst).
  exists i, post. split; [done|]. split; [done|]. split; [done|].
  unfold handleSubmit. rewrite Hed.
  set (st1 := updatePost _ _ _ _ st).
  assert (Hl1 : live st1) by (by apply updatePost_live).
  destruct (handleSubmit_after localeCompare st1 Hl1)
    as (_ & Hp & Hs & _ & He & _ & _ & _ & _ & _ & Hr).
  rewrite Hp, Hs.
  assert (Hupd : postList st1 = <[i := assign post (value (titleInput (document st)))
                   (value (authorInput (document st))) (value (bodyInput (document st)))]>
                   (postList st))
    by (by apply updatePost_found).
  split; [rewrite Hupd; unfold assign; by rewrite Hid|].
  split; [rewrite Hupd; apply length_insert|].
  split; [by apply (updatePost_storage _ _ _ _ _ i post)|].
  split; [apply formState_Idle; unfold editingId; by rewrite He | exact Hr].
Qed.

(** ** Editing *)

Lemma truthy_nonempty (s : string) : s <> "" -> JSString.truthy s = true.
Proof. by destruct s. Qed.

Lemma assign_same (post : BlogPost.t) :
  assign post (BlogPost.title post) (BlogPost.author post) (BlogPost.body post) = post.
Proof. by destruct post. Qed.

(** X4. [editPost] with the id of a post of the list assigns the
    title, author and body of the first such post to the controls of
    the form, which hold them as an input and a textarea do: title and
    author without their line feeds and carriage returns, the body
    with its line ends read as line feeds; as they are when the post
    holds what the form can hold.  It makes the post the one being
    edited, relabels the submit button and adds the cancel button;
    the list, the stored text and the cards are left alone. *)
Theorem editPost_prefills (id : string) (st : State) :
  id ∈ ids (postList st) ->
  let st' := editPost id st in
  exists i post,
    postList st !! i = Some post
    /\ BlogPost.id post = id
    /\ (forall j q, postList st !! j = Some q -> BlogPost.id q = id -> (i <= j)%nat)
    /\ value (titleInput (document st')) = stripNewlines (BlogPost.title post)
    /\ value (authorInput (document st')) = stripNewlines (BlogPost.author post)
    /\ value (bodyInput (document st')) = normalizeNewlines (BlogPost.body post)
    /\ (enterable post ->
        value (titleInput (document st')) = BlogPost.title post
        /\ value (authorInput (document st')) = BlogPost.author post
        /\ value (bodyInput (document st')) = BlogPost.body post)
    /\ currentEditingId st' = Some id
    /\ submitBtn (document st') = UpdatePostLabel
    /\ cancelEdit (document st') = true
    /\ postList st' = postList st
    /\ storage st' = storage st
    /\ postsContainer (document st') = postsContainer (document st).
Proof.
  intros Hin. simpl.
  destruct (list_find_id id (postList st) Hin) as (i & post & Hf).
  destruct (list_find_first id _ i post Hf) as (Hi & Hid & Hfirst).
  exists i, post. unfold editPost. rewrite Hf.
  split; [done|]. split; [done|]. split; [done|].
  split; [done|]. split; [done|]. split; [done|].
  split; [intros (Ht & Ha & Hb); simpl; by rewrite Ht, Ha, Hb|].
  repeat (split; [done|]). done.
Qed.

Lemma list_find_id_None (id : string) (l : list BlogPost.t) :
  id ∉ ids l -> list_find (fun p => BlogPost.id p = id) l = None.
Proof.
  intros Hn.
  destruct (list_find _ _) as [[i post]|] eqn:Hf; [|done].
  apply list_find_Some in Hf as (Hi & Hid & _).
  exfalso. apply Hn. apply list_elem_of_In, in_map_iff.
  exists post. split; [done|]. apply list_elem_of_In.
  by eapply list_elem_of_lookup_2.
Qed.

(** X5. [editPost] with an id that no post has does nothing: the form,
    the post being edited and everything else stay as they are. *)
Theorem editPost_unknown_id (id : string) (st : State) :
  id ∉ ids (postList st) -> editPost id st = st.
Proof. intros Hn. unfold editPost. by rewrite list_find_id_None. Qed.

Lemma resetForm_pristine (st : State) : pristine st -> resetForm st = st.
Proof.
  destruct st as [h p c s d co].
  destruct d as [[tv td] [av ad] [bv bd] sb ce ss af pc np].
  unfold pristine, resetForm. simpl. intros (-> & -> & -> & -> & -> & ->). reflexivity.
Qed.



(** X8. A post whose id is the empty string cannot be updated through
    the form: after [editPost] the button reads "Update Post", but
    [currentEditingId] is falsy, so submitting creates a new post from
    what was typed and leaves every post of the list as it was. *)
Theorem submit_edit_of_empty_id (localeCompare : string -> string -> Z)
    (uuid : string) (now : Z) (title author body : string) (st : State) :
  live st -> "" ∈ ids (postList st) ->
  let st1 := editPost "" st in
  let st' := handleSubmit localeCompare uuid now (typed title author body st1) in
  currentEditingId st1 = Some ""
  /\ submitBtn (document st1) = UpdatePostLabel
  /\ formState st1 = Idle
  /\ postList st'
     = BlogPost.make uuid title author body (JSDate.TimeValue now) :: postList st.
Proof.
  intros Hl Hin. simpl.
  destruct (list_find_id "" (postList st) Hin) as (i & post & Hf).
  unfold editPost. rewrite Hf.
  set (st0 := fillForm post (setCurrentEditingId (Some "") st)).
  split; [done|]. split; [done|]. split; [done|].
  unfold handleSubmit.
  change (editingId (typed title author body st0)) with (@None string).
  set (st1 := createPost _ _ _ _ _ _).
  assert (Hl1 : live st1) by (by apply createPost_live).
  destruct (handleSubmit_after localeCompare st1 Hl1) as (_ & Hp & _).
  rewrite Hp. unfold st1. by rewrite createPost_postList.
Qed.

(** ** Deleting *)

Lemma filter_sublist {A : Type} (f : A -> bool) (l : list A) :
  sublist (List.filter f l) l.
Proof.
  induction l as [|x l IH]; simpl; [done|].
  destruct (f x); [by apply sublist_skip | by apply sublist_cons].
Qed.

Lemma ids_filter_other (id : string) (l : list BlogPost.t) :
  id ∉ ids (List.filter (fun post => negb (String.eqb (BlogPost.id post) id)) l).
Proof.
  intros Hin. apply list_elem_of_In, in_map_iff in Hin as (p & Hp & Hin).
  apply filter_In in Hin as [_ Hin]. apply negb_true_iff, String.eqb_neq in Hin. done.
Qed.

(** X9. A confirmed [deletePost] removes every post with the given id,
    also when several posts share it, and keeps every other post in
    the order of the list; deleting the same id once more changes
    nothing in the list. *)
Theorem deletePost_removes_every (localeCompare : string -> string -> Z)
    (id : string) (st : State) :
  let st' := deletePost localeCompare true id st in
  (id ∉ ids (postList st'))
  /\ (forall p, p ∈ postList st' <-> p ∈ postList st /\ BlogPost.id p <> id)
  /\ sublist (postList st') (postList st)
  /\ postList (deletePost localeCompare true id st') = postList st'.
Proof.
  simpl.
  destruct (deletePost_postList localeCompare id st) as (Hp & _).
  destruct (deletePost_postList localeCompare id (deletePost localeCompare true id st))
    as (Hp' & _).
  simpl in Hp, Hp'. rewrite Hp', Hp.
  split; [apply ids_filter_other|].
  split; [|split; [apply filter_sublist|]].
  - intros p. rewrite !list_elem_of_In, filter_In, negb_true_iff, String.eqb_neq. done.
  - apply filter_other_id, ids_filter_other.
Qed.

(** X10. Creating a post and deleting it by its id, an id that no other
    post has, gives back the list as it was, and this list is what is
    stored. *)
Theorem create_then_delete (localeCompare : string -> string -> Z)
    (uuid : string) (now : Z) (title author body : string) (st : State) :
  live st -> uuid ∉ ids (postList st) ->
  let st' := deletePost localeCompare true uuid
               (createPost uuid now title author body st) in
  postList st' = postList st
  /\ storage st' = Some (serialize (postList st)).
Proof.
  intros Hl Hn. simpl.
  destruct (deletePost_postList localeCompare uuid (createPost uuid now title author body st))
    as (Hp & Hs & _).
  simpl in Hp, Hs. rewrite Hs, Hp, createPost_postList by done.
  simpl. rewrite String.eqb_refl. simpl.
  by rewrite filter_other_id.
Qed.

(** ** The order of the cards *)

Section StableFacts.
Context {A : Type}.
Variable comparefn : A -> A -> JSNumber.Number.

Lemma sort_in_order (l : list A) :
  Sorted (notAfter comparefn) l -> JSArray.sort comparefn l = l.
Proof.
  induction 1 as [|x l Hs IH Hd]; simpl; [done|].
  rewrite IH. destruct Hd as [|y l' Hxy]; simpl; [done|].
  unfold notAfter in Hxy. by destruct (Z.leb_spec (JSArray.SortCompare comparefn x y) 0); [|lia].
Qed.

Variable Q : A -> bool.
Hypothesis tied : forall x y, Q x = true -> Q y = true -> notAfter comparefn x y.

Lemma insert_filter_tied (x : A) (l : list A) :
  List.filter Q (JSArray.insert comparefn x l) = List.filter Q (x :: l).
Proof.
  induction l as [|y l IH]; [done|].
  cbn [JSArray.insert].
  destruct (Z.leb_spec (JSArray.SortCompare comparefn x y) 0) as [Hle|Hgt]; [done|].
  cbn [List.filter] in *. rewrite IH.
  destruct (Q x) eqn:Ex; [|done].
  destruct (Q y) eqn:Ey; [|done].
  pose proof (tied x y Ex Ey) as H. unfold notAfter in H. lia.
Qed.

Lemma sort_filter_tied (l : list A) :
  List.filter Q (JSArray.sort comparefn l) = List.filter Q l.
Proof.
  induction l as [|x l IH]; [done|].
  cbn [JSArray.sort]. rewrite insert_filter_tied. cbn [List.filter]. by rewrite IH.
Qed.
End StableFacts.

Lemma sameKey_notAfter localeCompare sortBy x y :
  sameKey localeCompare sortBy x y -> notAfter (compareFn localeCompare sortBy) x y.
Proof.
  unfold sameKey, notAfter, JSArray.SortCompare, compareFn.
  destruct (String.eqb sortBy "author"); [lia|].
  intros ->. destruct (BlogPost.timestamp y); simpl; lia.
Qed.

(** X11. The sort is stable: with a consistent comparator, posts with
    the same sort key (authors that [localeCompare] takes for equal
    under the key [author], the same timestamp under any other key)
    are returned in the order they have in the list. *)
Theorem view_stable (localeCompare : string -> string -> Z) (Q : BlogPost.t -> bool)
    (st : State) :
  ordering localeCompare st ->
  (forall x y, Q x = true -> Q y = true ->
     sameKey localeCompare (sortSelect (document st)) x y) ->
  List.filter Q (view localeCompare st) = List.filter Q (kept st).
Proof.
  intros _ Hkey. rewrite view_eq. apply sort_filter_tied.
  intros x y Hx Hy. by apply sameKey_notAfter, Hkey.
Qed.

(** X12. With a consistent comparator, when the posts that pass the
    filter already stand in its order, each not after its successor,
    the list operation returns them as they stand. *)
Theorem view_of_ordered_list (localeCompare : string -> string -> Z) (st : State) :
  ordering localeCompare st ->
  inOrder (compareFn localeCompare (sortSelect (document st))) (kept st) ->
  view localeCompare st = kept st.
Proof. intros _ H. rewrite view_eq. by apply sort_in_order. Qed.

(** X13. [clearFilter] empties the author filter and shows every post
    of the list, in some order; the indicator of [#no-posts] is shown
    exactly when the list is empty.  The list and the stored text are
    not touched. *)
Theorem clearFilter_shows_all (localeCompare : string -> string -> Z) (st : State) :
  live st ->
  let st' := clearFilter localeCompare st in
  authorFilter (document st') = ""
  /\ Permutation (postsContainer (document st')) (postList st)
  /\ (noPosts (document st') = "block" <-> postList st = [])
  /\ postList st' = postList st
  /\ storage st' = storage st.
Proof.
  intros Hl. simpl. unfold clearFilter.
  set (st1 := setDocument _ st).
  assert (Hl1 : live st1) by exact Hl.
  destruct (renderPosts_frame localeCompare st1 Hl1) as (_ & Hp & Hs & _).
  destruct (renderPosts_controls localeCompare st1) as [_ Hf].
  destruct (renderPosts_container localeCompare st1) as [Hc Hn].
  rewrite Hf, Hc, Hn, Hp, Hs, view_eq.
  assert (Hk : kept st1 = postList st) by reflexivity.
  rewrite Hk. set (cmp := compareFn _ _).
  pose proof (sort_Permutation cmp (postList st)) as Hperm.
  split; [done|]. split; [exact Hperm|].
  split; [|done].
  rewrite (Permutation_length Hperm).
  destruct (postList st); simpl; split; done.
Qed.

(** ** What every handler keeps *)

Lemma deletePost_after localeCompare id st :
  let st' := deletePost localeCompare true id st in
  live st'
  /\ currentEditingId st' = currentEditingId st
  /\ submitBtn (document st') = submitBtn (document st)
  /\ cancelEdit (document st') = cancelEdit (document st)
  /\ rendered localeCompare st'.
Proof.
  unfold deletePost, JSArray.filter.
  set (a := List.filter _ _).
  pose proof (alloc_lookup a (heap st)) as Hlook.
  destruct (JSArray.alloc a (heap st)) as [l h] eqn:Ea. simpl in Hlook.
  set (st1 := saveToStorage _).
  assert (Hl : live st1) by (unfold live; simpl; eauto).
  destruct (renderPosts_frame localeCompare st1 Hl)
    as (_ & _ & _ & He & _ & _ & _ & _ & Hsb & Hce).
  simpl. rewrite He, Hsb, Hce.
  split; [by apply renderPosts_live|].
  repeat (split; [reflexivity|]). by apply renderPosts_rendered.
Qed.

Lemma store_live (st st1 : State) (uuid : string) (now : Z) :
  live st ->
  live match editingId st with
       | Some id =>
           updatePost id (value (titleInput (document st)))
             (value (authorInput (document st))) (value (bodyInput (document st))) st
       | None =>
           createPost uuid now (value (titleInput (document st)))
             (value (authorInput (document st))) (value (bodyInput (document st))) st
       end.
Proof.
  intros Hl. destruct (editingId st); [by apply updatePost_live | by apply createPost_live].
Qed.

Lemma step_live localeCompare e st : live st -> live (step localeCompare e st).
Proof.
  intros Hl. destruct e as [uuid now|t a b|id|id answer| |v|v|]; simpl.
  - unfold handleSubmit. apply handleSubmit_after. by apply (store_live st st).
  - exact Hl.
  - unfold editPost. destruct (list_find _ _) as [[i post]|]; exact Hl.
  - destruct answer; [apply deletePost_after | exact Hl].
  - destruct (cancelEdit (document st)); exact Hl.
  - apply renderPosts_live. exact Hl.
  - apply renderPosts_live. exact Hl.
  - apply renderPosts_live. exact Hl.
Qed.







Lemma run_cons localeCompare e es st :
  run localeCompare (e :: es) st = run localeCompare es (step localeCompare e st).
Proof. reflexivity. Qed.

Lemma run_live localeCompare es : forall st, live st -> live (run localeCompare es st).
Proof.
  induction es as [|e es IH]; intros st Hl; [done|].
  rewrite run_cons. by apply IH, step_live.
Qed.

(** ** Handlers that cross *)

(** X14. A post created under an author filter that its author does not
    pass is in the list and in the stored text, but not among the
    cards: the filter stays as it is when the form is submitted. *)
Theorem submit_under_filter (localeCompare : string -> string -> Z)
    (uuid : string) (now : Z) (st : State) :
  live st -> formState st = Idle ->
  JSString.includes (JSString.toLowerCase (value (authorInput (document st))))
                    (JSString.toLowerCase (authorFilter (document st))) = false ->
  let st' := handleSubmit localeCompare uuid now st in
  let post := BlogPost.make uuid (value (titleInput (document st)))
                (value (authorInput (document st))) (value (bodyInput (document st)))
                (JSDate.TimeValue now) in
  post ∈ postList st'
  /\ (post ∉ postsContainer (document st'))
  /\ authorFilter (document st') = authorFilter (document st).
Proof.
  intros Hl Hidle Hno. apply formState_Idle in Hidle. simpl.
  unfold handleSubmit. rewrite Hidle.
  set (st1 := createPost _ _ _ _ _ st).
  assert (Hl1 : live st1) by (by apply createPost_live).
  destruct (handleSubmit_after localeCompare st1 Hl1) as (_ & Hp & _).
  destruct (renderPosts_controls localeCompare (resetForm st1)) as [_ Hf].
  destruct (renderPosts_container localeCompare (resetForm st1)) as [Hc _].
  rewrite Hp, Hf, Hc. unfold st1 at 1. rewrite createPost_postList by done.
  split; [left|]. split; [|done].
  rewrite view_eq. intros Hin.
  rewrite sort_Permutation, kept_filter in Hin. apply list_elem_of_In, filter_In in Hin as [_ Hm].
  unfold authorMatches in Hm. simpl in Hm. congruence.
Qed.

(** X15. [deletePost] does not leave the edit mode: when the post being
    edited is deleted, the button still reads "Update Post"; the next
    submit finds no post to update, so what was typed goes nowhere,
    the list and the stored text stay as the deletion left them, and
    the form is idle again. *)
Theorem delete_while_editing (localeCompare : string -> string -> Z)
    (uuid : string) (now : Z) (id title author body : string) (st : State) :
  live st -> id ∈ ids (postList st) -> id <> "" ->
  let st1 := deletePost localeCompare true id (editPost id st) in
  let st2 := handleSubmit localeCompare uuid now (typed title author body st1) in
  formState st1 = Editing id
  /\ submitBtn (document st1) = UpdatePostLabel
  /\ (id ∉ ids (postList st1))
  /\ postList st2 = postList st1
  /\ storage st2 = storage st1
  /\ formState st2 = Idle.
Proof.
  intros Hl Hin Hne. cbv zeta.
  destruct (list_find_id id (postList st) Hin) as (i & post & Hf).
  unfold editPost. rewrite Hf.
  set (st0 := fillForm post (setCurrentEditingId (Some id) st)).
  destruct (deletePost_after localeCompare id st0) as (Hl1 & He1 & Hsb1 & _).
  pose proof (proj1 (deletePost_postList localeCompare id st0)) as Hp1.
  set (st1 := deletePost localeCompare true id st0) in *.
  assert (Hn1 : id ∉ ids (postList st1)) by (rewrite Hp1; apply ids_filter_other).
  assert (Hed : editingId (typed title author body st1) = Some id).
  { unfold editingId. change (currentEditingId (typed title author body st1))
      with (currentEditingId st1). rewrite He1. simpl. by rewrite truthy_nonempty. }
  split; [apply formState_Editing; unfold editingId; rewrite He1; simpl;
          by rewrite truthy_nonempty|].
  split; [by rewrite Hsb1|]. split; [exact Hn1|].
  unfold handleSubmit. rewrite Hed.
  rewrite updatePost_absent by exact Hn1.
  assert (Hlt : live (typed title author body st1)) by exact Hl1.
  destruct (handleSubmit_after localeCompare _ Hlt) as (_ & Hp & Hs & _ & He & _).
  rewrite Hp, Hs. split; [done|]. split; [done|].
  apply formState_Idle. unfold editingId. by rewrite He.
Qed.

(** ** Sessions *)










(** ** Startup *)

Lemma loadFromStorage_Normal hostDateParse st st' :
  live st -> loadFromStorage hostDateParse st = Normal st' ->
  live st'
  /\ storage st' = storage st
  /\ document st' = document st
  /\ currentEditingId st' = currentEditingId st.
Proof.
  intros Hl H. unfold loadFromStorage in H.
  apply bind_Normal_inv in H as (loaded & _ & H).
  destruct loaded as [|revived|error].
  - by injection H as <-.
  - apply bind_Normal_inv in H as (ps & _ & H).
    pose proof (alloc_lookup ps (heap st)) as Hlook.
    destruct (JSArray.alloc ps (heap st)) as [l h]. simpl in Hlook.
    injection H as <-. unfold live. simpl. rewrite Hlook. eauto.
  - pose proof (alloc_lookup (A := BlogPost.t) [] (heap (consoleError error st))) as Hlook.
    destruct (JSArray.alloc [] (heap (consoleError error st))) as [l h]. simpl in Hlook.
    injection H as <-. unfold live. simpl. rewrite Hlook. eauto.
Qed.




(** X22. Started on a stored list of posts with valid dates, [init]
    restores the list, post by post and in its order, shows the posts
    that match the author filter of the page, and logs no error. *)
Theorem init_restores (localeCompare : string -> string -> Z)
    (hostDateParse : string -> JSDate.Date) (l : list BlogPost.t) (d : Document) :
  Forall dated l ->
  exists st',
    init localeCompare hostDateParse (initialState (Some (serialize l)) d) = Normal st'
    /\ postList st' = l
    /\ Permutation (postsContainer (document st'))
                   (List.filter (authorMatches (authorFilter d)) l)
    /\ (noPosts (document st') = "block"
        <-> List.filter (authorMatches (authorFilter d)) l = [])
    /\ console st' = []
    /\ storage st' = Some (serialize l).
Proof.
  intros Hd. set (st0 := initialState (Some (serialize l)) d).
  assert (Hl0 : live st0) by (unfold live; simpl; rewrite lookup_singleton_eq; eauto).
  destruct (loadFromStorage_serialized hostDateParse st0 l eq_refl Hd)
    as (st1 & Hload & Hp1 & Hc1 & Hs1).
  destruct (loadFromStorage_Normal hostDateParse st0 st1 Hl0 Hload) as (Hl1 & _ & Hd1 & _).
  exists (renderPosts localeCompare st1).
  unfold init. rewrite Hload. split; [reflexivity|].
  destruct (renderPosts_frame localeCompare st1 Hl1) as (_ & Hp & Hs & _ & Hc & _).
  destruct (renderPosts_container localeCompare st1) as [Hpc Hnp].
  rewrite Hp, Hs, Hc, Hpc, Hnp, Hp1, Hc1, Hs1, view_eq, kept_filter, Hd1, Hp1.
  change (document st0) with d.
  set (cmp := compareFn _ _). set (m := List.filter _ l).
  pose proof (sort_Permutation cmp m) as Hperm.
  split; [done|]. split; [exact Hperm|]. split; [|done].
  rewrite (Permutation_length Hperm). destruct m; simpl; split; done.
Qed.

(** X23. The stored text tells the list: two lists of posts with valid
    dates that [saveToStorage] writes as the same text are the same
    list. *)
Theorem serialize_injective (l1 l2 : list BlogPost.t) :
  Forall dated l1 -> Forall dated l2 -> serialize l1 = serialize l2 -> l1 = l2.
Proof.
  intros H1 H2 E.
  pose proof (JSON_parse_serialize l1) as P1.
  pose proof (JSON_parse_serialize l2) as P2.
  rewrite E, P2 in P1. injection P1 as P1.
  pose proof (mapC_revive isoOnly l1 H1) as M1.
  pose proof (mapC_revive isoOnly l2 H2) as M2.
  rewrite <- P1, M2 in M1. injection M1 as M1.
  pose proof (mapC_blogPost l1) as B1.
  pose proof (mapC_blogPost l2) as B2.
  rewrite <- M1, B2 in B1. by injection B1.
Qed.

(** ** Markup *)

Section MarkupFacts.
Import Markup.

Lemma escapeCodeUnit_shape (c : ascii) :
  (c = "&"%char /\ escapeCodeUnit c = "&amp;")
  \/ (c = "<"%char /\ escapeCodeUnit c = "&lt;")
  \/ (c = ">"%char /\ escapeCodeUnit c = "&gt;")
  \/ (c = "160"%char /\ escapeCodeUnit c = "&nbsp;")
  \/ (special c = false /\ escapeCodeUnit c = String c EmptyString).
Proof.
  unfold escapeCodeUnit, special. cbv zeta.
  destruct (N.eqb_spec (N_of_ascii c) 38) as [E|_].
  { left. split; [|done]. by rewrite <- (ascii_N_embedding c), E. }
  destruct (N.eqb_spec (N_of_ascii c) 60) as [E|_].
  { right; left. split; [|done]. by rewrite <- (ascii_N_embedding c), E. }
  destruct (N.eqb_spec (N_of_ascii c) 62) as [E|_].
  { right; right; left. split; [|done]. by rewrite <- (ascii_N_embedding c), E. }
  destruct (N.eqb_spec (N_of_ascii c) 160) as [E|_].
  { right; right; right; left. split; [|done]. by rewrite <- (ascii_N_embedding c), E. }
  right; right; right; right. done.
Qed.

Lemma occurs_app (c : ascii) (a b : string) :
  occurs c (a +:+ b) = occurs c a || occurs c b.
Proof. induction a as [|d a IH]; simpl; [done|]. by rewrite IH, orb_assoc. Qed.

Lemma special_eqb (c d : ascii) : special d = true -> special c = false -> Ascii.eqb d c = false.
Proof. intros Hd Hc. destruct (Ascii.eqb_spec d c) as [->|]; [congruence | done]. Qed.

(** X24. What [escapeHtml] returns holds no angle bracket and no
    no-break space, so it opens and closes no tag, whatever the text
    is. *)
Theorem escapeHtml_no_markup (text : string) :
  occurs "<" (escapeHtml text) = false
  /\ occurs ">" (escapeHtml text) = false
  /\ occurs "160" (escapeHtml text) = false.
Proof.
  induction text as [|c r (IH1 & IH2 & IH3)]; [done|].
  cbn [escapeHtml]. rewrite !occurs_app, IH1, IH2, IH3, !orb_false_r.
  destruct (escapeCodeUnit_shape c)
    as [[-> ->] | [[-> ->] | [[-> ->] | [[-> ->] | [Hs ->]]]]]; try done.
  cbn [occurs]. rewrite !orb_false_r.
  split; [|split]; by apply special_eqb.
Qed.

(** The encoding of a code unit is no prefix of the encoding of another. *)
Lemma escapeCodeUnit_prefix_free (c d : ascii) (r1 r2 : string) :
  escapeCodeUnit c +:+ r1 = escapeCodeUnit d +:+ r2 -> c = d /\ r1 = r2.
Proof.
  destruct (escapeCodeUnit_shape c)
    as [[-> ->] | [[-> ->] | [[-> ->] | [[-> ->] | [Hc ->]]]]];
  destruct (escapeCodeUnit_shape d)
    as [[-> ->] | [[-> ->] | [[-> ->] | [[-> ->] | [Hd ->]]]]];
  simpl; intros H; try discriminate;
  injection H; intros; subst;
  try (vm_compute in Hc; discriminate); try (vm_compute in Hd; discriminate); done.
Qed.

(** X25. [escapeHtml] loses nothing: two texts with the same escaped
    form are the same text. *)
Theorem escapeHtml_injective (s1 s2 : string) :
  escapeHtml s1 = escapeHtml s2 -> s1 = s2.
Proof.
  revert s2. induction s1 as [|c r1 IH]; intros [|d r2]; cbn [escapeHtml]; intros H.
  - done.
  - destruct (escapeCodeUnit_shape d)
      as [[-> E] | [[-> E] | [[-> E] | [[-> E] | [_ E]]]]]; rewrite E in H; discriminate.
  - destruct (escapeCodeUnit_shape c)
      as [[-> E] | [[-> E] | [[-> E] | [[-> E] | [_ E]]]]]; rewrite E in H; discriminate.
  - apply escapeCodeUnit_prefix_free in H as [-> H]. f_equal. by apply IH.
Qed.

Lemma escapeHtml_length (s : string) :
  (String.length s <= String.length (escapeHtml s))%nat.
Proof.
  induction s as [|c r IH]; [done|].
  cbn [escapeHtml]. rewrite length_app_string.
  destruct (escapeCodeUnit_shape c)
    as [[-> ->] | [[-> ->] | [[-> ->] | [[-> ->] | [_ ->]]]]]; simpl; lia.
Qed.

(** X26. [escapeHtml] returns a text unchanged exactly when the text
    holds no ampersand, no angle bracket and no no-break space. *)
Theorem escapeHtml_plain (text : string) :
  escapeHtml text = text
  <-> occurs "&" text = false /\ occurs "<" text = false
      /\ occurs ">" text = false /\ occurs "160" text = false.
Proof.
  induction text as [|c r IH]; [done|].
  cbn [escapeHtml occurs]. rewrite !orb_false_iff.
  pose proof (escapeHtml_length r) as Hlen.
  destruct (escapeCodeUnit_shape c)
    as [[-> ->] | [[-> ->] | [[-> ->] | [[-> ->] | [Hs ->]]]]].
  - split; [|intros ([? _] & _); discriminate].
    intros H. injection H as H. apply (f_equal String.length) in H.
    simpl in H. lia.
  - split; [intros H; discriminate | intros (_ & [? _] & _); discriminate].
  - split; [intros H; discriminate | intros (_ & _ & [? _] & _); discriminate].
  - split; [intros H; discriminate | intros (_ & _ & _ & [? _]); discriminate].
  - change (String c EmptyString +:+ escapeHtml r) with (String c (escapeHtml r)).
    rewrite (special_eqb c "&"), (special_eqb c "<"), (special_eqb c ">"),
      (special_eqb c "160") by done.
    split.
    + intros H. injection H as H. apply IH in H. tauto.
    + intros H. f_equal. apply IH. tauto.
Qed.

Lemma breakLines_app (a b : string) :
  breakLines (a +:+ b) = breakLines a +:+ breakLines b.
Proof.
  induction a as [|c a IH]; [done|].
  cbn [breakLines String.append]. rewrite IH.
  destruct (Ascii.eqb c "010"); reflexivity.
Qed.

Lemma bodyCodeUnit_shape (c : ascii) :
  let m := breakLines (escapeCodeUnit c) in
  (c = "&"%char /\ m = "&amp;")
  \/ (c = "<"%char /\ m = "&lt;")
  \/ (c = ">"%char /\ m = "&gt;")
  \/ (c = "160"%char /\ m = "&nbsp;")
  \/ (c = "010"%char /\ m = "<br>")
  \/ (special c = false /\ Ascii.eqb c "010" = false /\ m = String c EmptyString).
Proof.
  cbv zeta.
  destruct (escapeCodeUnit_shape c)
    as [[-> ->] | [[-> ->] | [[-> ->] | [[-> ->] | [Hs ->]]]]]; auto 6.
  cbn [breakLines]. destruct (Ascii.eqb_spec c "010") as [->|]; auto 10.
Qed.

Lemma bodyCodeUnit_prefix_free (c d : ascii) (r1 r2 : string) :
  breakLines (escapeCodeUnit c) +:+ r1 = breakLines (escapeCodeUnit d) +:+ r2 ->
  c = d /\ r1 = r2.
Proof.
  destruct (bodyCodeUnit_shape c)
    as [[-> ->] | [[-> ->] | [[-> ->] | [[-> ->] | [[-> ->] | (Hc & Hc' & ->)]]]]];
  destruct (bodyCodeUnit_shape d)
    as [[-> ->] | [[-> ->] | [[-> ->] | [[-> ->] | [[-> ->] | (Hd & Hd' & ->)]]]]];
  simpl; intros H; try discriminate;
  injection H; intros; subst;
  try (vm_compute in Hc; discriminate); try (vm_compute in Hd; discriminate); done.
Qed.

(** X27. The content of [.post-content] tells the body: it holds no
    line feed, every line feed of the body having become [<br>], and
    two bodies with the same content are the same body. *)
Theorem bodyMarkup_faithful (b1 b2 : string) :
  occurs "010" (bodyMarkup b1) = false
  /\ (bodyMarkup b1 = bodyMarkup b2 -> b1 = b2).
Proof.
  unfold bodyMarkup. split.
  - induction b1 as [|c r IH]; [done|].
    cbn [escapeHtml]. rewrite breakLines_app, occurs_app, IH, orb_false_r.
    destruct (bodyCodeUnit_shape c)
      as [[-> ->] | [[-> ->] | [[-> ->] | [[-> ->] | [[-> ->] | (Hc & Hc' & ->)]]]]];
      try done.
    cbn [occurs]. rewrite orb_false_r. by rewrite Ascii.eqb_sym.
  - revert b2. induction b1 as [|c r1 IH]; intros [|d r2]; cbn [escapeHtml];
      rewrite ?breakLines_app; intros H.
    + done.
    + destruct (bodyCodeUnit_shape d)
        as [[-> E] | [[-> E] | [[-> E] | [[-> E] | [[-> E] | (_ & _ & E)]]]]];
        rewrite E in H; discriminate.
    + destruct (bodyCodeUnit_shape c)
        as [[-> E] | [[-> E] | [[-> E] | [[-> E] | [[-> E] | (_ & _ & E)]]]]];
        rewrite E in H; discriminate.
    + apply bodyCodeUnit_prefix_free in H as [-> H]. f_equal. by apply IH.
Qed.

End MarkupFacts.

(** ** The statements of this part at sample data *)

Lemma handleSubmit_creates_witness :
  live (typed "Second" "Ann" "..." (stateWith [postA] "date" ""))
  /\ formState (typed "Second" "Ann" "..." (stateWith [postA] "date" "")) = Idle
  /\ postList (handleSubmit codeUnitCompare "b" 2
                 (typed "Second" "Ann" "..." (stateWith [postA] "date" "")))
     = [postB; postA].
Proof.
  assert (Hl : live (typed "Second" "Ann" "..." (stateWith [postA] "date" "")))
    by (vm_compute; eauto).
  assert (Hf : formState (typed "Second" "Ann" "..." (stateWith [postA] "date" "")) = Idle)
    by reflexivity.
  split; [exact Hl|]. split; [exact Hf|].
  exact (proj1 (handleSubmit_creates codeUnitCompare "b" 2 _ Hl Hf)).
Defined.

Lemma handleSubmit_updates_witness :
  live (typed "T" "U" "V" (editingState "a" [postB; postA]))
  /\ formState (typed "T" "U" "V" (editingState "a" [postB; postA])) = Editing "a"
  /\ "a" ∈ ids (postList (typed "T" "U" "V" (editingState "a" [postB; postA])))
  /\ exists i post,
       postList (typed "T" "U" "V" (editingState "a" [postB; postA])) !! i = Some post
       /\ postList (handleSubmit codeUnitCompare "u" 3
                      (typed "T" "U" "V" (editingState "a" [postB; postA])))
          = <[i := BlogPost.make "a" "T" "U" "V" (BlogPost.timestamp post)]>
              [postB; postA].
Proof.
  assert (Hl : live (typed "T" "U" "V" (editingState "a" [postB; postA])))
    by (vm_compute; eauto).
  assert (Hf : formState (typed "T" "U" "V" (editingState "a" [postB; postA])) = Editing "a")
    by reflexivity.
  assert (Hin : "a" ∈ ids (postList (typed "T" "U" "V" (editingState "a" [postB; postA]))))
    by (vm_compute; right; left).
  split; [exact Hl|]. split; [exact Hf|]. split; [exact Hin|].
  destruct (handleSubmit_updates codeUnitCompare "u" 3 "a" _ Hl Hf Hin)
    as (i & post & H1 & _ & _ & H2 & _).
  exists i, post. split; [exact H1 | exact H2].
Defined.

Lemma editPost_prefills_witness :
  "a" ∈ ids (postList (stateWith [postB; postA] "date" ""))
  /\ value (titleInput (document (editPost "a" (stateWith [postB; postA] "date" ""))))
     = "First"
  /\ currentEditingId (editPost "a" (stateWith [postB; postA] "date" "")) = Some "a".
Proof.
  assert (Hin : "a" ∈ ids (postList (stateWith [postB; postA] "date" "")))
    by (vm_compute; right; left).
  split; [exact Hin|].
  destruct (editPost_prefills "a" (stateWith [postB; postA] "date" "") Hin)
    as (i & post & _ & _ & _ & _ & _ & _ & _ & H & _).
  split; [reflexivity | exact H].
Defined.

Lemma editPost_unknown_id_witness :
  ("z" ∉ ids (postList (stateWith [postB; postA] "date" "")))
  /\ editPost "z" (stateWith [postB; postA] "date" "") = stateWith [postB; postA] "date" "".
Proof.
  assert (Hn : "z" ∉ ids (postList (stateWith [postB; postA] "date" "")))
    by (vm_compute; intros H; repeat (inversion_clear H as [|? ? ? H']; rename H' into H)).
  split; [exact Hn|].
  exact (editPost_unknown_id "z" (stateWith [postB; postA] "date" "") Hn).
Defined.



Lemma submit_edit_of_empty_id_witness :
  live (stateWith [postE] "date" "")
  /\ "" ∈ ids (postList (stateWith [postE] "date" ""))
  /\ postList (handleSubmit codeUnitCompare "u" 4
                 (typed "Has id" "Eve" "..." (editPost "" (stateWith [postE] "date" ""))))
     = [BlogPost.make "u" "Has id" "Eve" "..." (JSDate.TimeValue 4); postE].
Proof.
  assert (Hl : live (stateWith [postE] "date" "")) by (vm_compute; eauto).
  assert (Hin : "" ∈ ids (postList (stateWith [postE] "date" "")))
    by (vm_compute; left).
  split; [exact Hl|]. split; [exact Hin|].
  exact (proj2 (proj2 (proj2
    (submit_edit_of_empty_id codeUnitCompare "u" 4 "Has id" "Eve" "..." _ Hl Hin)))).
Defined.

Lemma create_then_delete_witness :
  live (stateWith [postA] "date" "")
  /\ ("b" ∉ ids (postList (stateWith [postA] "date" "")))
  /\ postList (deletePost codeUnitCompare true "b"
                 (createPost "b" 2 "Second" "Ann" "..." (stateWith [postA] "date" "")))
     = [postA].
Proof.
  assert (Hl : live (stateWith [postA] "date" "")) by (vm_compute; eauto).
  assert (Hn : "b" ∉ ids (postList (stateWith [postA] "date" "")))
    by (vm_compute; intros H; repeat (inversion_clear H as [|? ? ? H']; rename H' into H)).
  split; [exact Hl|]. split; [exact Hn|].
  exact (proj1 (create_then_delete codeUnitCompare "b" 2 "Second" "Ann" "..." _ Hl Hn)).
Defined.

Lemma view_stable_witness :
  ordering codeUnitCompare (stateWith [postA; postB; withAuthor "Bob"] "author" "")
  /\ (forall x y : BlogPost.t,
     String.eqb (BlogPost.author x) "Bob" = true ->
     String.eqb (BlogPost.author y) "Bob" = true ->
     sameKey codeUnitCompare
       (sortSelect (document (stateWith [postA; postB; withAuthor "Bob"] "author" ""))) x y)
  /\ List.filter (fun p => String.eqb (BlogPost.author p) "Bob")
       (view codeUnitCompare (stateWith [postA; postB; withAuthor "Bob"] "author" ""))
     = [postA; withAuthor "Bob"].
Proof.
  assert (Ho : ordering codeUnitCompare
                 (stateWith [postA; postB; withAuthor "Bob"] "author" ""))
    by exact codeUnitCompare_consistent.
  assert (H : forall x y : BlogPost.t,
     String.eqb (BlogPost.author x) "Bob" = true ->
     String.eqb (BlogPost.author y) "Bob" = true ->
     sameKey codeUnitCompare
       (sortSelect (document (stateWith [postA; postB; withAuthor "Bob"] "author" ""))) x y).
  { intros x y Hx Hy. apply String.eqb_eq in Hx, Hy.
    unfold sameKey. simpl. rewrite Hx, Hy. reflexivity. }
  split; [exact Ho|]. split; [exact H|].
  exact (view_stable codeUnitCompare (fun p => String.eqb (BlogPost.author p) "Bob")
           (stateWith [postA; postB; withAuthor "Bob"] "author" "") Ho H).
Defined.

Lemma view_of_ordered_list_witness :
  ordering codeUnitCompare (stateWith [postB; postA] "date" "")
  /\ inOrder (compareFn codeUnitCompare
             (sortSelect (document (stateWith [postB; postA] "date" ""))))
          (kept (stateWith [postB; postA] "date" ""))
  /\ view codeUnitCompare (stateWith [postB; postA] "date" "") = [postB; postA].
Proof.
  assert (Ho : ordering codeUnitCompare (stateWith [postB; postA] "date" "")).
  { change (Forall hasTime [postB; postA]).
    repeat (constructor; [discriminate|]). constructor. }
  assert (H : inOrder (compareFn codeUnitCompare
                         (sortSelect (document (stateWith [postB; postA] "date" ""))))
                      (kept (stateWith [postB; postA] "date" ""))).
  { change (Sorted (notAfter (compareFn codeUnitCompare "date")) [postB; postA]).
    repeat constructor. unfold notAfter. vm_compute. discriminate. }
  split; [exact Ho|]. split; [exact H|].
  exact (view_of_ordered_list codeUnitCompare (stateWith [postB; postA] "date" "") Ho H).
Defined.

Lemma clearFilter_shows_all_witness :
  live (stateWith [postB; postA] "date" "bob")
  /\ authorFilter (document (clearFilter codeUnitCompare (stateWith [postB; postA] "date" "bob")))
     = ""
  /\ Permutation
       (postsContainer (document (clearFilter codeUnitCompare
                                    (stateWith [postB; postA] "date" "bob"))))
       [postB; postA].
Proof.
  assert (Hl : live (stateWith [postB; postA] "date" "bob")) by (vm_compute; eauto).
  split; [exact Hl|].
  destruct (clearFilter_shows_all codeUnitCompare (stateWith [postB; postA] "date" "bob") Hl)
    as (H1 & H2 & _).
  split; [exact H1 | exact H2].
Defined.







Lemma init_restores_witness :
  Forall dated [postB; postA]
  /\ exists st',
       init codeUnitCompare isoOnly
         (initialState (Some (serialize [postB; postA])) (page "date" "ann")) = Normal st'
       /\ postList st' = [postB; postA]
       /\ Permutation (postsContainer (document st')) [postB].
Proof.
  assert (Hd : Forall dated [postB; postA]) by (repeat constructor).
  split; [exact Hd|].
  destruct (init_restores codeUnitCompare isoOnly [postB; postA] (page "date" "ann") Hd)
    as (st' & H1 & H2 & H3 & _).
  exists st'. split; [exact H1|]. split; [exact H2 | exact H3].
Defined.

Lemma serialize_injective_witness :
  Forall dated [postB; postA]
  /\ Forall dated (rev [postA; postB])
  /\ serialize [postB; postA] = serialize (rev [postA; postB])
  /\ [postB; postA] = rev [postA; postB].
Proof.
  assert (H1 : Forall dated [postB; postA]) by (repeat constructor).
  assert (H2 : Forall dated (rev [postA; postB])) by (repeat constructor).
  assert (E : serialize [postB; postA] = serialize (rev [postA; postB])) by reflexivity.
  split; [exact H1|]. split; [exact H2|]. split; [exact E|].
  exact (serialize_injective [postB; postA] (rev [postA; postB]) H1 H2 E).
Defined.

Lemma escapeHtml_injective_witness :
  Markup.escapeHtml "a<b" = Markup.escapeHtml ("a" +:+ "<b")
  /\ "a<b" = "a" +:+ "<b".
Proof.
  assert (E : Markup.escapeHtml "a<b" = Markup.escapeHtml ("a" +:+ "<b")) by reflexivity.
  split; [exact E|].
  exact (escapeHtml_injective "a<b" ("a" +:+ "<b") E).
Defined.

Lemma submit_under_filter_witness :
  live (typed "Third" "Bob" "..." (stateWith [postB] "date" "ann"))
  /\ formState (typed "Third" "Bob" "..." (stateWith [postB] "date" "ann")) = Idle
  /\ JSString.includes
       (JSString.toLowerCase
          (value (authorInput (document (typed "Third" "Bob" "..."
                                           (stateWith [postB] "date" "ann"))))))
       (JSString.toLowerCase
          (authorFilter (document (typed "Third" "Bob" "..."
                                     (stateWith [postB] "date" "ann"))))) = false
  /\ BlogPost.make "c" "Third" "Bob" "..." (JSDate.TimeValue 3)
     ∉ postsContainer
         (document (handleSubmit codeUnitCompare "c" 3
                      (typed "Third" "Bob" "..." (stateWith [postB] "date" "ann")))).
Proof.
  assert (Hl : live (typed "Third" "Bob" "..." (stateWith [postB] "date" "ann")))
    by (vm_compute; eauto).
  assert (Hf : formState (typed "Third" "Bob" "..." (stateWith [postB] "date" "ann")) = Idle)
    by reflexivity.
  assert (Hno : JSString.includes
       (JSString.toLowerCase
          (value (authorInput (document (typed "Third" "Bob" "..."
                                           (stateWith [postB] "date" "ann"))))))
       (JSString.toLowerCase
          (authorFilter (document (typed "Third" "Bob" "..."
                                     (stateWith [postB] "date" "ann"))))) = false)
    by (vm_compute; reflexivity).
  split; [exact Hl|]. split; [exact Hf|]. split; [exact Hno|].
  exact (proj1 (proj2 (submit_under_filter codeUnitCompare "c" 3 _ Hl Hf Hno))).
Defined.

Lemma delete_while_editing_witness :
  live (stateWith [postB; postA] "date" "")
  /\ "a" ∈ ids (postList (stateWith [postB; postA] "date" ""))
  /\ "a" <> ""
  /\ postList (handleSubmit codeUnitCompare "u" 3
                 (typed "T" "U" "V"
                    (deletePost codeUnitCompare true "a"
                       (editPost "a" (stateWith [postB; postA] "date" "")))))
     = postList (deletePost codeUnitCompare true "a"
                   (editPost "a" (stateWith [postB; postA] "date" ""))).
Proof.
  assert (Hl : live (stateWith [postB; postA] "date" "")) by (vm_compute; eauto).
  assert (Hin : "a" ∈ ids (postList (stateWith [postB; postA] "date" "")))
    by (vm_compute; right; left).
  assert (Hne : "a" <> "") by discriminate.
  split; [exact Hl|]. split; [exact Hin|]. split; [exact Hne|].
  exact (proj1 (proj2 (proj2 (proj2
    (delete_while_editing codeUnitCompare "u" 3 "a" "T" "U" "V" _ Hl Hin Hne))))).
Defined.
